(** * Cult-Design-Scraper: a shallow embedding of [scraper.py]

    The script drives a browser over a product listing, extracts fields
    from each product page, downloads and converts the product images and
    writes one metadata file per product.

    A Python [str] is modelled as the list of its Unicode code points;
    whitespace is what [str.strip] and [str.split] take for whitespace,
    over all of Unicode. The lower-casing of non-ASCII characters comes from
    the Unicode tables of the interpreter and is taken as given.
    The browser, the network, the image library and the file system are an
    explicit environment ([world]) that answers each query of the script;
    every effect of the script is recorded, in program order, in a trace of
    [event]s. The only loop of the script that need not end, the scrolling
    of the listing, runs on fuel. *)

From Stdlib Require Import Strings.Byte.
From Stdlib Require Import String Ascii List Bool Arith ZArith NArith Lia.
From Stdlib Require Import DecimalString.
From Stdlib Require DecimalNat DecimalFacts.
Import ListNotations.
Local Open Scope string_scope.
Local Open Scope list_scope.

(** ** Python strings and the string operations used by the script *)

Module PyStr.

(** A Unicode code point. *)
Definition cp := N.

(** A Python [str]. *)
#[warnings="-notation-for-abbreviation"]
Notation str := (list cp).

(** The [str] of an ASCII literal. *)
Definition lit (s : string) : str := map N_of_ascii (list_ascii_of_string s).

Coercion lit : string >-> list.

(** [a == b] on strings *)
Fixpoint str_eqb (a b : str) : bool :=
  match a, b with
  | [], [] => true
  | x :: a', y :: b' => N.eqb x y && str_eqb a' b'
  | _, _ => false
  end.

(** The characters [str.strip()] and [str.split()] treat as whitespace
    ([str.isspace] on one character). *)
Definition is_space (c : cp) : bool :=
  ((9 <=? c) && (c <=? 13) || (28 <=? c) && (c <=? 32)
   || (c =? 133) || (c =? 160) || (c =? 5760)
   || (8192 <=? c) && (c <=? 8202)
   || (c =? 8232) || (c =? 8233) || (c =? 8239) || (c =? 8287)
   || (c =? 12288))%N.

Definition is_upper (c : cp) : bool := ((65 <=? c) && (c <=? 90))%N.

(** [c.lower()] for an ASCII character. *)
Definition lower_char (c : cp) : cp := if is_upper c then (c + 32)%N else c.

(** [s.lower()], from the text [before] on. An ASCII character becomes one
    character; a non-ASCII character becomes what [table] says for it
    between the text before and the text after it (the Unicode mapping can
    depend on the neighbours and can give several characters). *)
Fixpoint lower_from (table : str -> cp -> str -> str) (before s : str) : str :=
  match s with
  | [] => []
  | c :: rest =>
      (if (c <? 128)%N then [lower_char c] else table before c rest)
        ++ lower_from table (before ++ [c]) rest
  end.

(** [s.lower()] *)
Definition lower (table : str -> cp -> str -> str) (s : str) : str :=
  lower_from table [] s.

(** [s.lstrip()] *)
Fixpoint lstrip (s : str) : str :=
  match s with
  | [] => []
  | c :: s' => if is_space c then lstrip s' else s
  end.

(** [s.rstrip()] *)
Fixpoint rstrip (s : str) : str :=
  match s with
  | [] => []
  | c :: s' =>
      match rstrip s' with
      | [] => if is_space c then [] else [c]
      | r => c :: r
      end
  end.

(** [s.strip()] *)
Definition strip (s : str) : str := lstrip (rstrip s).

(** [s.rstrip(":")]: every trailing colon is removed. *)
Fixpoint rstrip_colon (s : str) : str :=
  match s with
  | [] => []
  | c :: s' =>
      match rstrip_colon s' with
      | [] => if N.eqb c 58 then [] else [c]
      | r => c :: r
      end
  end.

(** The string is empty or begins with a whitespace character. *)
Definition at_boundary (s : str) : bool :=
  match s with
  | [] => true
  | d :: _ => is_space d
  end.

(** [s.split()]: the maximal runs of non-whitespace characters, in order;
    no empty string is ever produced. *)
Fixpoint split (s : str) : list str :=
  match s with
  | [] => []
  | c :: rest =>
      if is_space c then split rest
      else if at_boundary rest then [c] :: split rest
      else
        match split rest with
        | w :: ws => (c :: w) :: ws
        | [] => [[c]]
        end
  end.

(** [s.startswith(p)] *)
Fixpoint starts_with (p s : str) : bool :=
  match p with
  | [] => true
  | x :: p' =>
      match s with
      | [] => false
      | y :: s' => N.eqb x y && starts_with p' s'
      end
  end.

(** [needle in hay] *)
Fixpoint contains (needle hay : str) : bool :=
  starts_with needle hay ||
  match hay with
  | [] => false
  | _ :: hay' => contains needle hay'
  end.

(** [sep.join(ls)] *)
Fixpoint join (sep : str) (ls : list str) : str :=
  match ls with
  | [] => []
  | [x] => x
  | x :: ls' => x ++ sep ++ join sep ls'
  end.

(** [str(n)] for a non-negative integer. *)
Definition of_nat (n : nat) : str :=
  lit (NilZero.string_of_uint (Nat.to_uint n)).

(** Every character of [s] is whitespace. *)
Fixpoint all_space (s : str) : bool :=
  match s with
  | [] => true
  | c :: s' => is_space c && all_space s'
  end.

(** No character of [s] is whitespace. *)
Fixpoint no_space (s : str) : bool :=
  match s with
  | [] => true
  | c :: s' => negb (is_space c) && no_space s'
  end.

End PyStr.

(** ** Insertion-ordered dictionary ([dict[str, str]]) *)

Module Dict.
Import PyStr.

Definition t := list (str * str).

(** [d[k] = v]: an existing key keeps its place and gets the new value, a
    new key is appended. *)
Fixpoint set (k v : str) (d : t) : t :=
  match d with
  | [] => [(k, v)]
  | (k', v') :: d' =>
      if str_eqb k' k then (k', v) :: d' else (k', v') :: set k v d'
  end.

Definition keys (d : t) : list str := map fst d.

(** [d] has exactly one entry for [l]; it holds [v] and comes right after
    the entries whose keys are [before], in this order. *)
Definition entry_at (l v : str) (before : list str) (d : t) : Prop :=
  exists A B,
    d = (A ++ (l, v) :: B)%list /\
    keys A = before /\ ~ In l before /\ ~ In l (keys B).

End Dict.

(** ** Effects: exceptions, trace events and the monad of the script *)

Inductive exn :=
| NoSuchElementException
| TimeoutException
| WebDriverException
| IndexError
| RequestException
| UnidentifiedImageError
| OSError
| ValueError
| UnicodeEncodeError.

(** What the script prints. *)
Inductive message :=
| MsgOpenedListing
| MsgFound (total : nat)
| MsgNoDescription (sku : PyStr.str)
| MsgNoMainImage (sku : PyStr.str)
| MsgNoThumbnails (sku : PyStr.str)
| MsgThumbnailFailed (sku : PyStr.str) (e : exn)
| MsgNoImageUrls (sku : PyStr.str)
| MsgImageFailed (img_url : option PyStr.str) (sku : PyStr.str) (e : exn)
| MsgSaved (index total : nat) (sku : PyStr.str) (n_images : nat).

(** Observable effects, in program order. [time.sleep] leaves no event.
    [OpenText path]: [open(path, "w")] returned, the file now exists and is
    empty. [WriteText path content]: the content was written and the file
    closed. [SaveImage]: [img.save] returned. [SaveAborted path]: the
    encoder raised after [img.save] had opened [path]; no image is there,
    and whether an empty file stays is up to the image library. *)
Inductive event :=
| Makedirs (path : PyStr.str)
| DriverCreate
| DriverGet (url : PyStr.str)
| ScrollToBottom
| Click (thumb : nat)
| HttpGet (url : option PyStr.str)
| SaveImage (path : PyStr.str) (mode format : string) (optimize : bool)
            (source : list byte)
| SaveAborted (path : PyStr.str)
| OpenText (path : PyStr.str)
| WriteText (path content : PyStr.str)
| Printed (m : message)
| DriverQuit.

Inductive result (A : Type) :=
| Ok (a : A)
| Raise (e : exn)
| Diverge.

Arguments Ok {A} a.
Arguments Raise {A} e.
Arguments Diverge {A}.

(** A computation yields the events it performed and how it ended. *)
Definition M (A : Type) : Type := (list event * result A)%type.

Definition ret {A} (a : A) : M A := ([], Ok a).

Definition bind {A B} (m : M A) (k : A -> M B) : M B :=
  match m with
  | (t, Ok a) => let (t', r) := k a in (t ++ t', r)%list
  | (t, Raise e) => (t, Raise e)
  | (t, Diverge) => (t, Diverge)
  end.

Definition emit (e : event) : M unit := ([e], Ok tt).

Definition raise {A} (e : exn) : M A := ([], Raise e).

Definition diverge {A} : M A := ([], Diverge).

Declare Scope py_scope.
Delimit Scope py_scope with py.
Notation "x <- m ;; k" := (bind m (fun x => k))
  (at level 61, m at next level, right associativity) : py_scope.
Notation "m ;; k" := (bind m (fun _ => k))
  (at level 61, right associativity) : py_scope.
Local Open Scope py_scope.

(** [try: m  except Exception as e: h e] *)
Definition try_except {A} (m : M A) (h : exn -> M A) : M A :=
  match m with
  | (t, Raise e) => let (t', r) := h e in (t ++ t', r)%list
  | other => other
  end.

(** [try: m  finally: fin]. The final block runs on return and on raise;
    an exception of the final block replaces the pending outcome. *)
Definition try_finally {A} (m : M A) (fin : M unit) : M A :=
  match m with
  | (t, Diverge) => (t, Diverge)
  | (t, r) =>
      match fin with
      | (t', Ok _) => (t ++ t', r)%list
      | (t', Raise e) => (t ++ t', Raise e)%list
      | (t', Diverge) => (t ++ t', Diverge)%list
      end
  end.

(** [for x in l: body x] *)
Fixpoint for_each {A} (l : list A) (body : A -> M unit) : M unit :=
  match l with
  | [] => ret tt
  | x :: l' => body x ;; for_each l' body
  end.

(** [enumerate(l, start)] *)
Fixpoint enumerate {A} (start : nat) (l : list A) : list (nat * A) :=
  match l with
  | [] => []
  | x :: l' => (start, x) :: enumerate (S start) l'
  end.

(** [when b m]: [if b: m] *)
Definition when (b : bool) (m : M unit) : M unit := if b then m else ret tt.

(** The computation returns or raises: it is not caught in a loop forever. *)
Definition exits {A} (m : M A) : Prop := snd m <> Diverge.

(** Every event of the computation satisfies [P]. *)
Definition emits (P : event -> Prop) {A} (m : M A) : Prop := Forall P (fst m).

(** ** The environment of a run *)

(** One thumbnail: whether the scripted click goes through, and the main
    image found afterwards ([None]: no such element; [Some src]: its [src]
    attribute, itself [None] when the attribute is absent). *)
Record thumb := {
  click_ok : bool;
  main_after : option (option PyStr.str)
}.

(** What the browser answers on one product page. *)
Record page := {
  nav_ok : bool;                              (* driver.get returns *)
  ready : bool;                               (* h1.product-name appears within 20 s *)
  title_el : option PyStr.str;                (* h1.product-name *)
  desc_els : list PyStr.str;                  (* .product-description *)
  price_el : option PyStr.str;                (* lib-price-inside span span *)
  avail_el : option PyStr.str;                (* lib-availability a *)
  attr_table : option (list (list PyStr.str)); (* .attribute-table: rows of td texts *)
  main_img : option (option PyStr.str);       (* .image-container img, its src *)
  thumbnails : list thumb                     (* .product-detail-image img *)
}.

(** What the outside answers during one run. A product page answers the
    same way each time it is asked; paths are POSIX paths. *)
Record world := {
  chrome_starts : bool;
  listing_loads : bool;
  scroll_height : nat -> Z;                   (* k-th reading of document.body.scrollHeight *)
  product_cards : list (option PyStr.str);    (* text of "small span" in each card *)
  product_page : PyStr.str -> page;           (* by product URL *)
  http_get : PyStr.str -> option (list byte); (* body of a successful GET *)
  image_mode : list byte -> option string;    (* Image.open: mode of the decoded image *)
  convert_error : list byte -> string -> option exn;
                                              (* img.convert(mode) raises *)
  encode_error : list byte -> string -> option exn;
                                              (* the WEBP encoder raises inside img.save *)
  can_write : PyStr.str -> bool;              (* the path can be created or opened for writing *)
  write_error : PyStr.str -> PyStr.str -> option exn;
                                              (* f.write(content) raises on the opened path *)
  unicode_lower : PyStr.str -> PyStr.cp -> PyStr.str -> PyStr.str
                                              (* lower-casing of a non-ASCII character
                                                 between the text before and after it *)
}.

(** The fields of a product the script extracts before it writes them. *)
Record product_record := {
  rec_title : PyStr.str;
  rec_description : PyStr.str;
  rec_price : PyStr.str;
  rec_in_stock : PyStr.str;
  rec_attributes : Dict.t
}.

(** ** The script *)

Module Scraper.
Import PyStr.

Definition newline : str := [10%N].

Definition LISTING_URL : str :=
  "https://hedlundgruppen.gung.io/categories/sAllaProdukterCult?limit=288".
Definition OUTPUT_DIR : str := "output".
Definition KEYWORD : str := "lager".

(** [PRODUCT_URL_TEMPLATE.format(sku=sku)] *)
Definition product_url (sku : str) : str :=
  "https://hedlundgruppen.gung.io/product/" ++ sku.

Fixpoint ends_with_slash (s : str) : bool :=
  match s with
  | [] => false
  | [c] => N.eqb c 47
  | _ :: s' => ends_with_slash s'
  end.

(** [os.path.join(a, b)] (POSIX) *)
Definition path_join (a b : str) : str :=
  if starts_with "/" b then b
  else if (str_eqb a [] || ends_with_slash a)%bool then a ++ b
  else a ++ "/" ++ b.

Section WithWorld.
Variable w : world.

(** [os.makedirs(path, exist_ok=True)] *)
Definition makedirs (path : str) : M unit :=
  emit (Makedirs path) ;;
  if can_write w path then ret tt else raise OSError.

Definition create_webdriver : M unit :=
  if chrome_starts w then emit DriverCreate else raise WebDriverException.

(** The [while True] loop of [scroll_to_load_all], after [k] readings. *)
Fixpoint scroll_loop (fuel k : nat) (last_height : Z) : M unit :=
  match fuel with
  | O => diverge
  | S fuel' =>
      emit ScrollToBottom ;;
      let new_height := scroll_height w (S k) in
      if Z.eqb new_height last_height then ret tt
      else scroll_loop fuel' (S k) new_height
  end.

Definition scroll_to_load_all (fuel : nat) : M unit :=
  scroll_loop fuel 0 (scroll_height w 0).

(** [[card.find_element(...).text.strip() for card in product_cards]] *)
Fixpoint collect_skus (cards : list (option str)) : M (list str) :=
  match cards with
  | [] => ret []
  | None :: _ => raise NoSuchElementException
  | Some text :: cards' =>
      skus <- collect_skus cards' ;;
      ret (strip text :: skus)
  end.

(** [driver.find_element(...).text] *)
Definition find_text (el : option str) : M str :=
  match el with
  | Some text => ret text
  | None => raise NoSuchElementException
  end.

(** [price_text.split()[0]] *)
Definition first_token (price_text : str) : M str :=
  match split price_text with
  | tok :: _ => ret tok
  | [] => raise IndexError
  end.

Definition stock_flag (availability_text : str) : str :=
  if contains KEYWORD availability_text then "YES" else "NO".

(** One [tr] of the attribute table. *)
Definition add_row (d : Dict.t) (cells : list str) : Dict.t :=
  match cells with
  | [c0; c1] => Dict.set (rstrip_colon (strip c0)) (strip c1) d
  | _ => d
  end.

Definition extract_attributes (p : page) : Dict.t :=
  match attr_table p with
  | Some rows => fold_left add_row rows []
  | None => []
  end.

Definition url_eqb (a b : option str) : bool :=
  match a, b with
  | Some x, Some y => str_eqb x y
  | None, None => true
  | _, _ => false
  end.

(** [src not in image_urls] then [append] *)
Definition add_url (src : option str) (image_urls : list (option str))
  : list (option str) :=
  if existsb (url_eqb src) image_urls then image_urls
  else (image_urls ++ [src])%list.

Definition click_thumbnail (sku : str) (i : nat) (t : thumb)
           (image_urls : list (option str)) : M (list (option str)) :=
  try_except
    (emit (Click i) ;;
     (if click_ok t then ret tt else raise WebDriverException) ;;
     src <- match main_after t with
            | Some src => ret src
            | None => raise NoSuchElementException
            end ;;
     ret (add_url src image_urls))
    (fun e => emit (Printed (MsgThumbnailFailed sku e)) ;; ret image_urls).

Fixpoint click_thumbnails (sku : str) (i : nat) (ts : list thumb)
         (image_urls : list (option str)) : M (list (option str)) :=
  match ts with
  | [] => ret image_urls
  | t :: ts' =>
      image_urls' <- click_thumbnail sku i t image_urls ;;
      click_thumbnails sku (S i) ts' image_urls'
  end.

Definition collect_image_urls (sku : str) (p : page)
  : M (list (option str)) :=
  image_urls <- match main_img p with
                | Some src => ret [src]
                | None => emit (Printed (MsgNoMainImage sku)) ;; ret []
                end ;;
  when (match thumbnails p with [] => true | _ => false end)
       (emit (Printed (MsgNoThumbnails sku))) ;;
  click_thumbnails sku 0 (thumbnails p) image_urls.

(** [requests.get(img_url, timeout=30)] and [raise_for_status()] *)
Definition requests_get (img_url : option str) : M (list byte) :=
  emit (HttpGet img_url) ;;
  match img_url with
  | Some url =>
      match http_get w url with
      | Some content => ret content
      | None => raise RequestException
      end
  | None => raise RequestException
  end.

(** The mode [convert_to_webp] converts a decoded image to:
    [img.mode in ("RGBA", "LA")] selects RGBA, anything else RGB. *)
Definition target_mode (mode : string) : string :=
  if (String.eqb mode "RGBA" || String.eqb mode "LA")%bool then "RGBA"
  else "RGB".

(** [Image.open] may fail to identify the bytes; [img.convert] may raise
    (a conversion Pillow does not have, truncated data); [img.save] may
    fail to open the path, or its encoder may raise once the file is
    open. *)
Definition convert_to_webp (image_bytes : list byte) (output_path : str)
  : M unit :=
  match image_mode w image_bytes with
  | None => raise UnidentifiedImageError
  | Some mode =>
      let target := target_mode mode in
      match convert_error w image_bytes target with
      | Some e => raise e
      | None =>
          if can_write w output_path then
            match encode_error w image_bytes target with
            | None =>
                emit (SaveImage output_path target "WEBP" true image_bytes)
            | Some e => emit (SaveAborted output_path) ;; raise e
            end
          else raise OSError
      end
  end.

Definition webp_path (product_dir : str) (idx : nat) : str :=
  path_join product_dir (of_nat idx ++ ".webp").

Definition download_image (sku product_dir : str)
           (item : nat * option str) : M unit :=
  let (idx, img_url) := item in
  try_except
    (content <- requests_get img_url ;;
     convert_to_webp content (webp_path product_dir idx))
    (fun e => emit (Printed (MsgImageFailed img_url sku e))).

(** --- Download and convert images to WEBP --- *)
Definition save_images (sku product_dir : str)
           (image_urls : list (option str)) : M unit :=
  for_each (enumerate 1 image_urls) (download_image sku product_dir).

Definition description_of (p : page) : str :=
  match desc_els p with
  | d :: _ => strip d
  | [] => []
  end.

(** --- Extract product metadata --- *)
Definition extract_metadata (sku : str) (p : page) : M product_record :=
  title_text <- find_text (title_el p) ;;
  let title := strip title_text in
  let description := description_of p in
  when (str_eqb description []) (emit (Printed (MsgNoDescription sku))) ;;
  price_raw <- find_text (price_el p) ;;
  let price_text := strip price_raw in
  price <- first_token price_text ;;
  availability <- find_text (avail_el p) ;;
  let availability_text := lower (unicode_lower w) availability in
  let in_stock := stock_flag availability_text in
  let extra_attributes := extract_attributes p in
  ret {| rec_title := title;
         rec_description := description;
         rec_price := price;
         rec_in_stock := in_stock;
         rec_attributes := extra_attributes |}.

Definition attribute_line (kv : str * str) : str :=
  fst kv ++ ": " ++ snd kv.

Definition metadata_lines (sku : str) (r : product_record) : list str :=
  [ "SKU: " ++ sku;
    "Title: " ++ rec_title r;
    "Price: " ++ rec_price r;
    "In stock: " ++ rec_in_stock r;
    [];
    rec_description r ]
  ++ map attribute_line (rec_attributes r).

(** [with open(path, "w", encoding="utf-8") as f: f.write(content)]:
    opening creates or empties the file; writing can still raise. *)
Definition write_text (path content : str) : M unit :=
  if can_write w path then
    emit (OpenText path) ;;
    match write_error w path content with
    | None => emit (WriteText path content)
    | Some e => raise e
    end
  else raise OSError.

(** --- Save metadata to a text file --- *)
Definition save_metadata (sku product_dir : str) (r : product_record)
  : M unit :=
  let meta_file := path_join product_dir "data.txt" in
  write_text meta_file (join newline (metadata_lines sku r)).

(** Body of the [for index, sku in enumerate(skus, start=1)] loop. *)
Definition process_product (total : nat) (item : nat * str) : M unit :=
  let (index, sku) := item in
  let p := product_page w (product_url sku) in
  emit (DriverGet (product_url sku)) ;;
  (if nav_ok p then ret tt else raise WebDriverException) ;;
  (if ready p then ret tt else raise TimeoutException) ;;
  r <- extract_metadata sku p ;;
  image_urls <- collect_image_urls sku p ;;
  when (match image_urls with [] => true | _ => false end)
       (emit (Printed (MsgNoImageUrls sku))) ;;
  let product_dir := path_join OUTPUT_DIR sku in
  makedirs product_dir ;;
  save_images sku product_dir image_urls ;;
  save_metadata sku product_dir r ;;
  emit (Printed (MsgSaved index total sku (length image_urls))).

(** Steps 1 and 2 of the [try] block: open the listing, scroll it to the
    end and read the SKU of every product card. *)
Definition load_listing (fuel : nat) : M (list str) :=
  emit (DriverGet LISTING_URL) ;;
  (if listing_loads w then ret tt else raise WebDriverException) ;;
  emit (Printed MsgOpenedListing) ;;
  scroll_to_load_all fuel ;;
  collect_skus (product_cards w).

(** Body of the [try] block of [scrape_products]. *)
Definition run_body (fuel : nat) : M unit :=
  skus <- load_listing fuel ;;
  let total := length skus in
  emit (Printed (MsgFound total)) ;;
  for_each (enumerate 1 skus) (process_product total).

Definition scrape_products (fuel : nat) : M unit :=
  makedirs OUTPUT_DIR ;;
  create_webdriver ;;
  try_finally (run_body fuel) (emit DriverQuit).

(** Every step for the image [(idx, img_url)] goes through: the URL is
    there, the request answers, the bytes decode, the conversion is done,
    the encoder accepts the image and the path can be written. *)
Definition image_ok (product_dir : str) (item : nat * option str)
  : bool :=
  match snd item with
  | Some url =>
      match http_get w url with
      | Some content =>
          match image_mode w content with
          | Some mode =>
              match convert_error w content (target_mode mode),
                    encode_error w content (target_mode mode) with
              | None, None => can_write w (webp_path product_dir (fst item))
              | _, _ => false
              end
          | None => false
          end
      | None => false
      end
  | None => false
  end.

End WithWorld.

(** Extraction of one of the required fields (title, price, availability
    text) raises on page [p]. *)
Definition required_field_raises (p : page) : bool :=
  match title_el p, price_el p, avail_el p with
  | Some _, Some price_raw, Some _ =>
      match split (strip price_raw) with
      | [] => true
      | _ :: _ => false
      end
  | _, _, _ => true
  end.

(** Paths of the image files a trace writes, in order. *)
Fixpoint saved_paths (tr : list event) : list str :=
  match tr with
  | [] => []
  | SaveImage path _ _ _ _ :: tr' => path :: saved_paths tr'
  | _ :: tr' => saved_paths tr'
  end.

(** The image files of a trace are [1.webp] .. [N.webp] of [product_dir],
    in this order, [N] being their number. *)
Definition contiguous_numbering (product_dir : str) (tr : list event) : Prop :=
  saved_paths tr = map (webp_path product_dir) (seq 1 (length (saved_paths tr))).

(** Label of a well-formed attribute row (exactly two cells). *)
Definition row_label (cells : list str) : option str :=
  match cells with
  | [c0; _] => Some (rstrip_colon (strip c0))
  | _ => None
  end.

(** Text files a trace writes, in order, with their content. *)
Fixpoint text_writes (tr : list event) : list (str * str) :=
  match tr with
  | [] => []
  | WriteText path content :: tr' => (path, content) :: text_writes tr'
  | _ :: tr' => text_writes tr'
  end.

(** URLs the browser is sent to, in order. *)
Fixpoint visited (tr : list event) : list str :=
  match tr with
  | [] => []
  | DriverGet url :: tr' => url :: visited tr'
  | _ :: tr' => visited tr'
  end.

(** What the description warning prints on page [p]. *)
Definition description_warning (sku : str) (p : page) : list event :=
  if str_eqb (description_of p) [] then [Printed (MsgNoDescription sku)]
  else [].

Definition is_quit (e : event) : bool :=
  match e with DriverQuit => true | _ => false end.

(** Events of the blocks that work on one loaded product page: no
    navigation, no session event, no text file. *)
Definition page_local (e : event) : Prop :=
  match e with
  | Makedirs _ | Click _ | HttpGet _ | SaveImage _ _ _ _ _ | SaveAborted _
  | Printed _ => True
  | _ => False
  end.

End Scraper.

(** ** Pillow image modes *)

Module Pillow.

(** The modes Pillow reports as carrying an alpha channel
    ([Image.has_transparency_data], apart from palette transparency kept
    in [info]): alpha or premultiplied alpha next to grey, palette or RGB
    bands. *)
Definition has_alpha_channel (mode : string) : bool :=
  existsb (String.eqb mode) ["LA"; "La"; "PA"; "RGBA"; "RGBa"]%string.

(** Number of bands of the two modes the script converts to. *)
Definition channels (mode : string) : option nat :=
  if String.eqb mode "RGBA" then Some 4
  else if String.eqb mode "RGB" then Some 3
  else None.

End Pillow.

(** ** Sample pages and shops *)

Module Demo.
Import PyStr Scraper.

Definition shown (src : str) : thumb :=
  {| click_ok := true; main_after := Some (Some src) |}.

Definition stuck : thumb :=
  {| click_ok := false; main_after := Some (Some (lit "u9")) |}.

(** A complete product page: a repeated attribute label, a thumbnail
    that shows the main image again and one whose click fails. *)
Definition vase : page :=
  {| nav_ok := true;
     ready := true;
     title_el := Some (lit " Vase ");
     desc_els := [];
     price_el := Some (lit "129,00 SEK");
     avail_el := Some (lit "Finns i Lager");
     attr_table :=
       Some (map (map lit)
               [["Color:"; "red"]; ["x"]; ["Size:"; "L"]; ["Color"; "blue"]]);
     main_img := Some (Some (lit "u1"));
     thumbnails := [shown "u1"; stuck; shown "u2"] |}.

(** A page without a price element. *)
Definition no_price : page :=
  {| nav_ok := true;
     ready := true;
     title_el := Some (lit "Bowl");
     desc_els := [lit "A bowl."];
     price_el := None;
     avail_el := Some (lit "Slut");
     attr_table := None;
     main_img := None;
     thumbnails := [] |}.

(** A page whose price element shows only blanks: a space, a no-break
    space (U+00A0) and an em space (U+2003). *)
Definition blank_price : page :=
  {| nav_ok := true;
     ready := true;
     title_el := Some (lit "Bowl");
     desc_els := [lit "A bowl."];
     price_el := Some [32; 160; 8195]%N;
     avail_el := Some (lit "Slut");
     attr_table := None;
     main_img := None;
     thumbnails := [] |}.

(** A price with a narrow no-break space (U+202F) between the thousands
    and a no-break space before the currency. *)
Definition grouped_price : str :=
  lit " 1" ++ [8239%N] ++ lit "295,00" ++ [160%N] ++ lit "kr".

(** A page with every field, padded with whitespace of several kinds. *)
Definition lamp : page :=
  {| nav_ok := true;
     ready := true;
     title_el := Some ([160%N] ++ lit "Lamp" ++ [8195; 10]%N);
     desc_els := [lit " Gives light. "; lit "ignored"];
     price_el := Some grouped_price;
     avail_el := Some (lit "EJ I LAGER");
     attr_table :=
       Some [[lit "Height::" ++ [160%N]; [9%N] ++ lit "40 cm"];
             [lit "Shade"; lit "linen"]];
     main_img := Some (Some (lit "u1"));
     thumbnails := [] |}.


(** Lower-casing outside ASCII, for the characters the samples use:
    the capital letters of Latin-1, the Kelvin sign (to [k]) and the
    dotted capital I (to [i] and a combining dot); every other character
    is kept. *)
Definition simple_lower (before : str) (c : cp) (after : str) : str :=
  if ((192 <=? c) && (c <=? 222) && negb (c =? 215))%N then [(c + 32)%N]
  else if (c =? 8490)%N then [107%N]
  else if (c =? 304)%N then [105; 775]%N
  else [c].

Definition is_surrogate (c : cp) : bool :=
  ((55296 <=? c) && (c <=? 57343))%N.

(** UTF-8 refuses a text with a surrogate. *)
Definition utf8_error (path content : str) : option exn :=
  if existsb is_surrogate content then Some UnicodeEncodeError else None.

(** A shop listing [cards]; the listing settles after two scrolls, every
    image decodes in mode [mode] and converts, every path can be written. *)
Definition shop (cards : list str) (page_of : str -> page)
           (get : str -> option (list byte)) (mode : string) : world :=
  {| chrome_starts := true;
     listing_loads := true;
     scroll_height := fun k => Z.of_nat (Nat.min k 2);
     product_cards := map Some cards;
     product_page := page_of;
     http_get := get;
     image_mode := fun _ => Some mode;
     convert_error := fun _ _ => None;
     encode_error := fun _ _ => None;
     can_write := fun _ => true;
     write_error := utf8_error;
     unicode_lower := simple_lower |}.

Definition all_vases (url : str) : page := vase.

Definition first_is (bad : page) (url : str) : page :=
  if str_eqb url (product_url "A") then bad else vase.

Definition fetch_all (url : str) : option (list byte) := Some [x00].

Definition fetch_but_u1 (url : str) : option (list byte) :=
  if str_eqb url "u1" then None else Some [x00].

Definition w_ok : world := shop [lit "A"] all_vases fetch_all "RGB".
Definition w_no_price : world :=
  shop [lit "A"; lit "B"] (first_is no_price) fetch_all "RGB".
Definition w_blank_price : world :=
  shop [lit "A"; lit "B"] (first_is blank_price) fetch_all "RGB".
Definition w_lost_image : world :=
  shop [lit "A"] all_vases fetch_but_u1 "RGB".
Definition w_palette_alpha : world :=
  shop [lit "A"] all_vases fetch_all "PA".
Definition w_lamp : world :=
  shop [lit "L"] (fun _ => lamp) fetch_all "RGBA".

(** A shop whose card shows an absolute path as its SKU. *)
Definition w_absolute_sku : world :=
  shop [lit "/tmp/evil"] all_vases fetch_all "RGB".

(** Images decode in mode La (grey with premultiplied alpha), which
    Pillow does not convert to RGB. *)
Definition w_premultiplied : world :=
  {| chrome_starts := true;
     listing_loads := true;
     scroll_height := fun k => Z.of_nat (Nat.min k 2);
     product_cards := [Some (lit "A")];
     product_page := all_vases;
     http_get := fetch_all;
     image_mode := fun _ => Some "La"%string;
     convert_error := fun _ _ => Some ValueError;
     encode_error := fun _ _ => None;
     can_write := fun _ => true;
     write_error := utf8_error;
     unicode_lower := simple_lower |}.

(** The WEBP encoder refuses every image (say, one side over 16383
    pixels). *)
Definition w_too_large : world :=
  {| chrome_starts := true;
     listing_loads := true;
     scroll_height := fun k => Z.of_nat (Nat.min k 2);
     product_cards := [Some (lit "A")];
     product_page := all_vases;
     http_get := fetch_all;
     image_mode := fun _ => Some "RGB"%string;
     convert_error := fun _ _ => None;
     encode_error := fun _ _ => Some ValueError;
     can_write := fun _ => true;
     write_error := utf8_error;
     unicode_lower := simple_lower |}.

End Demo.

(** ** The statements under test, as the specification words them *)

Module Stated.
Import PyStr Scraper.

(** A required field of [sku] raises, and still the run goes on to the
    page of [next]. *)
Definition isolates_failure (w : world) (fuel : nat) (sku next : str) : Prop :=
  required_field_raises (product_page w (product_url sku)) = true ->
  In (product_url next) (visited (fst (scrape_products w fuel))).

(** The normalizer targets four channels exactly when the decoded image
    has an alpha channel. *)
Definition keeps_alpha (mode : string) : Prop :=
  Pillow.channels (target_mode mode) = Some 4 <->
  Pillow.has_alpha_channel mode = true.

(** The whitespace characters of Unicode (bidirectional type WS, B or S,
    or category Zs): TAB to CR, FS to US, the space, NEL, the no-break
    space, the ogham space mark, the spaces U+2000 to U+200A, the line and
    paragraph separators, the narrow no-break space, the medium
    mathematical space and the ideographic space. *)
Definition whitespace_points : list cp :=
  [9; 10; 11; 12; 13; 28; 29; 30; 31; 32; 133; 160; 5760;
   8192; 8193; 8194; 8195; 8196; 8197; 8198; 8199; 8200; 8201; 8202;
   8232; 8233; 8239; 8287; 12288]%N.

Definition Whitespace (c : cp) : Prop := In c whitespace_points.

(** Only whitespace. *)
Definition blank (s : str) : Prop := Forall Whitespace s.

(** No whitespace at all. *)
Definition solid (s : str) : Prop := Forall (fun c => ~ Whitespace c) s.

(** [tok] is the first whitespace-delimited token of [text]: whitespace
    comes before it, it is not empty and holds no whitespace, and what
    follows is nothing or begins with whitespace. *)
Definition first_token_of (text tok : str) : Prop :=
  exists pre rest,
    text = pre ++ tok ++ rest /\ blank pre /\ tok <> [] /\ solid tok /\
    (rest = [] \/ exists c rest', rest = c :: rest' /\ Whitespace c).

(** [s] neither begins nor ends with whitespace. *)
Definition no_outer_space (s : str) : Prop :=
  (forall c rest, s = c :: rest -> ~ Whitespace c) /\
  (forall init c, s = init ++ [c] -> ~ Whitespace c).

(** [s] is [text] without its leading and trailing whitespace. *)
Definition trimmed_of (text s : str) : Prop :=
  exists pre post,
    text = pre ++ s ++ post /\ blank pre /\ blank post /\ no_outer_space s.

(** The same letter, up to the case of the letters A to Z. *)
Definition same_letter (c d : cp) : Prop :=
  c = d \/
  ((65 <= c <= 90)%N /\ d = (c + 32)%N) \/
  ((65 <= d <= 90)%N /\ c = (d + 32)%N).

(** [kw] occurs in [text] under case-insensitive comparison. *)
Definition occurs_nocase (kw text : str) : Prop :=
  exists pre mid post, text = pre ++ mid ++ post /\ Forall2 same_letter mid kw.

(** Lower-casing a character outside ASCII gives at least one character
    and never a letter of [kw]. *)
Definition foreign_to (kw : str) (table : str -> cp -> str -> str) : Prop :=
  forall before c after,
    (128 <= c)%N ->
    table before c after <> [] /\
    Forall (fun d => ~ In d kw) (table before c after).

(** The lines of an attribute dictionary, each after a line feed. *)
Definition attribute_block (attributes : list (str * str)) : str :=
  flat_map (fun kv => [10%N] ++ fst kv ++ lit ": " ++ snd kv) attributes.

(** The text of [data.txt] as the layout gives it. *)
Definition metadata_text (sku title price in_stock description : str)
           (attributes : list (str * str)) : str :=
  lit "SKU: " ++ sku ++ [10%N] ++
  lit "Title: " ++ title ++ [10%N] ++
  lit "Price: " ++ price ++ [10%N] ++
  lit "In stock: " ++ in_stock ++ [10%N] ++
  [10%N] ++
  description ++
  attribute_block attributes.

(** Where the images of [sku] go: [os.path.join] keeps [output] in front
    of a relative SKU and drops it for a SKU that begins with a slash. *)
Definition product_directory (sku : str) : str :=
  if starts_with "/" sku then sku else lit "output/" ++ sku.

Definition image_file (sku : str) (idx : nat) : str :=
  product_directory sku
    ++ (if ends_with_slash (product_directory sku) then [] else lit "/")
    ++ of_nat idx ++ lit ".webp".

End Stated.

(** ** Further observations of a run *)

Module Observe.
Import PyStr Scraper.

(** [d.get(k)] *)
Fixpoint dict_get (k : str) (d : Dict.t) : option str :=
  match d with
  | [] => None
  | (k', v') :: d' => if str_eqb k' k then Some v' else dict_get k d'
  end.

(** The row has exactly two cells. *)
Definition two_cells (cells : list str) : bool :=
  match cells with
  | [_; _] => true
  | _ => false
  end.

(** Labels of the well-formed rows, in table order. *)
Fixpoint row_labels (rows : list (list str)) : list str :=
  match rows with
  | [] => []
  | cells :: rows' =>
      match row_label cells with
      | Some l => l :: row_labels rows'
      | None => row_labels rows'
      end
  end.

Fixpoint ends_with_colon (s : str) : bool :=
  match s with
  | [] => false
  | [c] => N.eqb c 58
  | _ :: s' => ends_with_colon s'
  end.

(** A string of [n] colons. *)
Definition colons (n : nat) : str := repeat 58%N n.

(** What a thumbnail contributes when its click and the lookup of the main
    image both go through. *)
Definition thumb_src (t : thumb) : option (option str) :=
  if click_ok t then main_after t else None.

(** URLs requested over HTTP, in order. *)
Fixpoint http_requests (tr : list event) : list (option str) :=
  match tr with
  | [] => []
  | HttpGet url :: tr' => url :: http_requests tr'
  | _ :: tr' => http_requests tr'
  end.

(** URLs of the images reported as failed, in order. *)
Fixpoint image_failures (tr : list event) : list (option str) :=
  match tr with
  | [] => []
  | Printed (MsgImageFailed url _ _) :: tr' => url :: image_failures tr'
  | _ :: tr' => image_failures tr'
  end.

(** The progress lines [[index/total] SKU ... saved with n images]. *)
Fixpoint progress (tr : list event) : list (nat * nat * str) :=
  match tr with
  | [] => []
  | Printed (MsgSaved index total sku _) :: tr' =>
      (index, total, sku) :: progress tr'
  | _ :: tr' => progress tr'
  end.

(** Directories created, in order. *)
Fixpoint made_dirs (tr : list event) : list str :=
  match tr with
  | [] => []
  | Makedirs path :: tr' => path :: made_dirs tr'
  | _ :: tr' => made_dirs tr'
  end.


(** The event touches a file. *)
Definition is_file_write (e : event) : bool :=
  match e with
  | SaveImage _ _ _ _ _ | SaveAborted _ | OpenText _ | WriteText _ _ => true
  | _ => false
  end.

Definition data_path (sku : str) : str :=
  path_join (path_join OUTPUT_DIR sku) "data.txt".

(** Events of the extraction and image discovery blocks: clicks and
    warnings. *)
Definition discovery_event (e : event) : Prop :=
  match e with
  | Click _ => True
  | Printed (MsgSaved _ _ _ _) | Printed (MsgImageFailed _ _ _) => False
  | Printed _ => True
  | _ => False
  end.

(** Events of the download block: requests, saved images, saves that
    failed and failure warnings. *)
Definition download_event (e : event) : Prop :=
  match e with
  | HttpGet _ | SaveImage _ _ _ _ _ | SaveAborted _
  | Printed (MsgImageFailed _ _ _) => True
  | _ => False
  end.


(** Events of loading the listing, after the navigation to it. *)
Definition listing_event (e : event) : Prop :=
  match e with
  | ScrollToBottom | Printed MsgOpenedListing => True
  | _ => False
  end.

(** What is printed when no image URL was collected. *)
Definition no_urls_warning (sku : str) (image_urls : list (option str))
  : list event :=
  match image_urls with
  | [] => [Printed (MsgNoImageUrls sku)]
  | _ :: _ => []
  end.

(** An image file is WEBP, optimized, in mode RGB or RGBA, holds what
    was fetched from some URL, and is the file of a number from 1 on in
    the directory of one of [skus]. *)
Definition image_as_designed (w : world) (skus : list str) (e : event)
  : Prop :=
  match e with
  | SaveImage path mode format optimize source =>
      format = "WEBP"%string /\ optimize = true /\
      (mode = "RGB"%string \/ mode = "RGBA"%string) /\
      exists sku idx url,
        In sku skus /\ 1 <= idx /\ path = Stated.image_file sku idx /\
        http_get w url = Some source
  | _ => True
  end.

(** [lower_from] on a text that is followed by [after]: what the
    lowering of a part of a text looks like. *)
Fixpoint lower_in (table : str -> cp -> str -> str) (before s after : str)
  : str :=
  match s with
  | [] => []
  | c :: rest =>
      (if (c <? 128)%N then [lower_char c] else table before c (rest ++ after))
        ++ lower_in table (before ++ [c]) rest after
  end.

Definition is_digit (c : cp) : bool := ((48 <=? c) && (c <=? 57))%N.

(** The first character of a string is a decimal digit. *)
Definition starts_with_digit (s : str) : bool :=
  match s with
  | [] => false
  | c :: _ => is_digit c
  end.

End Observe.

(** Shops in which the run cannot start. *)
Module Broken.

Definition read_only_disk : world :=
  {| chrome_starts := true;
     listing_loads := true;
     scroll_height := fun _ => 0%Z;
     product_cards := [];
     product_page := Demo.all_vases;
     http_get := Demo.fetch_all;
     image_mode := fun _ => Some "RGB"%string;
     convert_error := fun _ _ => None;
     encode_error := fun _ _ => None;
     can_write := fun _ => false;
     write_error := Demo.utf8_error;
     unicode_lower := Demo.simple_lower |}.

Definition no_browser : world :=
  {| chrome_starts := false;
     listing_loads := true;
     scroll_height := fun _ => 0%Z;
     product_cards := [];
     product_page := Demo.all_vases;
     http_get := Demo.fetch_all;
     image_mode := fun _ => Some "RGB"%string;
     convert_error := fun _ _ => None;
     encode_error := fun _ _ => None;
     can_write := fun _ => true;
     write_error := Demo.utf8_error;
     unicode_lower := Demo.simple_lower |}.

Definition no_listing : world :=
  {| chrome_starts := true;
     listing_loads := false;
     scroll_height := fun _ => 0%Z;
     product_cards := [];
     product_page := Demo.all_vases;
     http_get := Demo.fetch_all;
     image_mode := fun _ => Some "RGB"%string;
     convert_error := fun _ _ => None;
     encode_error := fun _ _ => None;
     can_write := fun _ => true;
     write_error := Demo.utf8_error;
     unicode_lower := Demo.simple_lower |}.

(** A shop whose listing shows no product card. *)
Definition empty_shop : world :=
  Demo.shop [] Demo.all_vases Demo.fetch_all "RGB".

End Broken.

(** * Properties *)

(** ** Strings *)

Module PyStrFacts.
Import PyStr Observe.

Lemma str_eqb_eq (a b : str) : str_eqb a b = true <-> a = b.
Proof.
  revert b; induction a as [|x a IH]; intros [|y b]; simpl;
    try (split; [discriminate | congruence]); try tauto.
  rewrite andb_true_iff, N.eqb_eq, IH. split.
  - intros [-> ->]. reflexivity.
  - intros H. injection H as -> ->. auto.
Qed.

Lemma str_eqb_refl (a : str) : str_eqb a a = true.
Proof. now apply str_eqb_eq. Qed.

Lemma str_eqb_spec (a b : str) : reflect (a = b) (str_eqb a b).
Proof.
  destruct (str_eqb a b) eqn:E; constructor.
  - now apply str_eqb_eq.
  - intros H. apply str_eqb_eq in H. congruence.
Qed.

Lemma str_eqb_neq (a b : str) : str_eqb a b = false <-> a <> b.
Proof. destruct (str_eqb_spec a b); split; congruence. Qed.

Lemma starts_with_app (n h : str) :
  starts_with n h = true <-> exists post, h = n ++ post.
Proof.
  revert h; induction n as [|a n IH]; intros h; simpl.
  - split; eauto.
  - destruct h as [|b h]; simpl.
    + split; [discriminate | intros [post H]; discriminate].
    + rewrite andb_true_iff, N.eqb_eq, IH. split.
      * intros [-> [post ->]]. eauto.
      * intros [post H]. injection H as -> ->. eauto.
Qed.

Lemma contains_app (n h : str) :
  contains n h = true <-> exists pre post, h = pre ++ n ++ post.
Proof.
  induction h as [|c h IH].
  - change (contains n []) with (starts_with n [] || false)%bool.
    rewrite orb_false_r, starts_with_app. split.
    + intros [post H]. exists [], post. exact H.
    + intros [pre [post H]]. destruct pre; simpl in H; [eauto | discriminate].
  - change (contains n (c :: h))
      with (starts_with n (c :: h) || contains n h)%bool.
    rewrite orb_true_iff, starts_with_app, IH. split.
    + intros [[post H] | [pre [post H]]].
      * exists [], post. exact H.
      * exists (c :: pre), post. simpl. congruence.
    + intros [pre [post H]]. destruct pre as [|d pre]; simpl in H.
      * left. eauto.
      * right. exists pre, post. congruence.
Qed.

(** *** Whitespace *)

Lemma is_space_spec (c : cp) : is_space c = true <-> Stated.Whitespace c.
Proof.
  unfold is_space, Stated.Whitespace, Stated.whitespace_points.
  rewrite !orb_true_iff, !andb_true_iff, !N.leb_le, !N.eqb_eq.
  simpl. lia.
Qed.

Lemma is_space_false (c : cp) : is_space c = false <-> ~ Stated.Whitespace c.
Proof.
  rewrite <- is_space_spec. destruct (is_space c); split; congruence.
Qed.

Lemma all_space_blank (s : str) : all_space s = true <-> Stated.blank s.
Proof.
  unfold Stated.blank. induction s as [|c s IH]; simpl.
  - split; auto.
  - rewrite andb_true_iff, is_space_spec, IH. split.
    + intros [H1 H2]. now constructor.
    + intros H. inversion H. auto.
Qed.

Lemma no_space_solid (s : str) : no_space s = true <-> Stated.solid s.
Proof.
  unfold Stated.solid. induction s as [|c s IH]; simpl.
  - split; auto.
  - rewrite andb_true_iff, negb_true_iff, is_space_false, IH. split.
    + intros [H1 H2]. now constructor.
    + intros H. inversion H. auto.
Qed.

Lemma at_boundary_spec (s : str) :
  at_boundary s = true <->
  s = [] \/ exists c rest, s = c :: rest /\ Stated.Whitespace c.
Proof.
  destruct s as [|c s]; simpl.
  - split; auto.
  - rewrite is_space_spec. split.
    + intros H. right. eauto.
    + intros [H|(d & rest & H & Hd)]; [discriminate|]. congruence.
Qed.

(** *** Lower case *)

Lemma lower_in_nil table s : forall before,
  lower_in table before s [] = lower_from table before s.
Proof.
  induction s as [|c s IH]; intros before; simpl; [reflexivity|].
  now rewrite IH, app_nil_r.
Qed.

Lemma lower_in_app table a : forall before b after,
  lower_in table before (a ++ b) after =
  lower_in table before a (b ++ after) ++ lower_in table (before ++ a) b after.
Proof.
  induction a as [|c a IH]; intros before b after; simpl.
  - now rewrite app_nil_r.
  - rewrite IH, <- !app_assoc. simpl. reflexivity.
Qed.

Lemma lower_char_same_letter (c : cp) : Stated.same_letter c (lower_char c).
Proof.
  unfold lower_char, is_upper.
  destruct ((65 <=? c) && (c <=? 90))%N eqn:H.
  - apply andb_true_iff in H. rewrite !N.leb_le in H.
    right; left. split; [lia | reflexivity].
  - now left.
Qed.

Lemma same_letter_lower (c d : cp) :
  (97 <= d <= 122)%N -> Stated.same_letter c d ->
  (c <? 128)%N = true /\ lower_char c = d.
Proof.
  intros Hd H. unfold lower_char, is_upper.
  destruct H as [-> | [[Hc ->] | [Hu _]]]; [| |lia].
  - split; [apply N.ltb_lt; lia|].
    destruct (65 <=? d)%N eqn:E1; destruct (d <=? 90)%N eqn:E2;
      simpl; try reflexivity.
    apply N.leb_le in E2. lia.
  - split; [apply N.ltb_lt; lia|].
    destruct Hc as [H1 H2].
    apply N.leb_le in H1, H2. now rewrite H1, H2.
Qed.

(** A run of letters that matches a lower-case keyword up to case is
    lowered to the keyword, wherever it stands. *)
Lemma lower_in_keyword table mid : forall kw before after,
  Forall (fun k => (97 <= k <= 122)%N) kw ->
  Forall2 Stated.same_letter mid kw ->
  lower_in table before mid after = kw.
Proof.
  induction mid as [|c mid IH]; intros kw before after Hkw H;
    inversion H; subst; simpl; [reflexivity|].
  inversion Hkw; subst.
  match goal with
  | Hs : Stated.same_letter c ?d, Hr : (97 <= ?d <= 122)%N |- _ =>
      destruct (same_letter_lower c d Hr Hs) as [-> ->]
  end.
  simpl. f_equal. now apply IH.
Qed.

Section Foreign.
Variable table : str -> cp -> str -> str.
Variable kw0 : str.
Hypothesis Hforeign : Stated.foreign_to kw0 table.

(** The keyword found at the head of the lowered text stands at the head
    of the text, up to case. *)
Lemma starts_with_lower kw : forall text before,
  incl kw kw0 ->
  starts_with kw (lower_from table before text) = true ->
  exists mid post, text = mid ++ post /\ Forall2 Stated.same_letter mid kw.
Proof.
  induction kw as [|k kw IH]; intros text before Hin H.
  - exists [], text. split; [reflexivity | constructor].
  - assert (Hk : In k kw0) by (apply Hin; now left).
    assert (Hin' : incl kw kw0) by (intros x Hx; apply Hin; now right).
    destruct text as [|c rest]; [discriminate H|].
    simpl in H. destruct (c <? 128)%N eqn:Hc.
    + simpl in H. apply andb_true_iff in H. destruct H as [Hkc H].
      apply N.eqb_eq in Hkc.
      destruct (IH rest (before ++ [c]) Hin' H) as (mid & post & -> & Hm).
      exists (c :: mid), post. split; [reflexivity|].
      constructor; [|exact Hm]. rewrite Hkc. apply lower_char_same_letter.
    + apply N.ltb_ge in Hc.
      destruct (Hforeign before c rest Hc) as [Hne Hf].
      destruct (table before c rest) as [|d piece]; [congruence|].
      simpl in H. apply andb_true_iff in H. destruct H as [Hkd _].
      apply N.eqb_eq in Hkd. subst d.
      inversion Hf; subst. contradiction.
Qed.

(** No occurrence of the keyword begins inside the lowering of a
    non-ASCII character. *)
Lemma contains_skip kw piece rest :
  kw <> [] -> incl kw kw0 ->
  Forall (fun d => ~ In d kw0) piece ->
  contains kw (piece ++ rest) = true -> contains kw rest = true.
Proof.
  intros Hne Hin Hp. induction piece as [|d piece IH]; [auto|].
  inversion Hp; subst. intros H.
  change (contains kw ((d :: piece) ++ rest))
    with (starts_with kw (d :: piece ++ rest) || contains kw (piece ++ rest))%bool
    in H.
  apply orb_true_iff in H. destruct H as [H|H]; [|now apply IH].
  destruct kw as [|k kw]; [congruence|]. simpl in H.
  apply andb_true_iff in H. destruct H as [Hk _]. apply N.eqb_eq in Hk.
  subst d. exfalso.
  match goal with Hd : ~ In k kw0 |- _ => apply Hd end.
  apply Hin. now left.
Qed.

Lemma contains_lower_from kw text : forall before,
  incl kw kw0 ->
  contains kw (lower_from table before text) = true ->
  Stated.occurs_nocase kw text.
Proof.
  intros before Hin.
  destruct kw as [|k kw'] eqn:Ekw.
  { intros _. exists [], [], text. split; [reflexivity | constructor]. }
  rewrite <- Ekw in *. assert (Hne : kw <> []) by (rewrite Ekw; discriminate).
  clear Ekw. revert before.
  induction text as [|c rest IH]; intros before H.
  - simpl in H. rewrite orb_false_r in H.
    destruct kw; [congruence | discriminate H].
  - assert (Hrest : Stated.occurs_nocase kw rest ->
                    Stated.occurs_nocase kw (c :: rest)).
    { intros (pre & mid & post & -> & Hm).
      exists (c :: pre), mid, post. split; [reflexivity | exact Hm]. }
    destruct (starts_with kw (lower_from table before (c :: rest))) eqn:Hs.
    + destruct (starts_with_lower kw _ _ Hin Hs) as (mid & post & E & Hm).
      exists [], mid, post. split; [exact E | exact Hm].
    + apply Hrest. cbn [lower_from] in H, Hs.
      destruct (c <? 128)%N eqn:Hc.
      * change (contains kw ([lower_char c] ++ lower_from table (before ++ [c]) rest))
          with (starts_with kw
                  ([lower_char c] ++ lower_from table (before ++ [c]) rest)
                || contains kw (lower_from table (before ++ [c]) rest))%bool in H.
        rewrite Hs in H. simpl in H. now apply (IH (before ++ [c])).
      * apply N.ltb_ge in Hc.
        destruct (Hforeign before c rest Hc) as [_ Hf].
        apply (IH (before ++ [c])).
        now apply (contains_skip kw (table before c rest)).
Qed.

End Foreign.

(** Searching a lower-case keyword in the lowered text finds exactly the
    occurrences that match up to case. *)
Lemma contains_lower table (kw text : str) :
  Forall (fun k => (97 <= k <= 122)%N) kw ->
  Stated.foreign_to kw table ->
  contains kw (lower table text) = true <-> Stated.occurs_nocase kw text.
Proof.
  intros Hkw Hf. split.
  - apply (contains_lower_from table kw Hf). apply incl_refl.
  - intros (pre & mid & post & -> & Hm).
    unfold lower. rewrite <- lower_in_nil.
    rewrite lower_in_app, lower_in_app.
    rewrite (lower_in_keyword table mid kw _ _ Hkw Hm).
    apply contains_app. eauto.
Qed.

(** *** Whitespace splitting *)

Lemma split_all_space (s : str) : all_space s = true -> split s = [].
Proof.
  induction s as [|c s IH]; simpl; [reflexivity|].
  rewrite andb_true_iff. intros [Hc Hs]. rewrite Hc. auto.
Qed.

Lemma split_skip (pre s : str) :
  all_space pre = true -> split (pre ++ s) = split s.
Proof.
  induction pre as [|c pre IH]; simpl; [reflexivity|].
  rewrite andb_true_iff. intros [Hc Hs]. rewrite Hc. auto.
Qed.

Lemma at_boundary_app (tok rest : str) :
  tok <> [] -> no_space tok = true -> at_boundary (tok ++ rest) = false.
Proof.
  destruct tok as [|c tok]; [congruence|]. simpl.
  rewrite andb_true_iff, negb_true_iff. tauto.
Qed.

Lemma split_token (tok rest : str) :
  tok <> [] -> no_space tok = true -> at_boundary rest = true ->
  split (tok ++ rest) = tok :: split rest.
Proof.
  intros Hne Hns Hb. induction tok as [|c tok IH]; [congruence|].
  simpl in Hns. rewrite andb_true_iff, negb_true_iff in Hns.
  destruct Hns as [Hc Htok]. simpl. rewrite Hc.
  destruct tok as [|d tok].
  - simpl. now rewrite Hb.
  - rewrite at_boundary_app by (auto; discriminate).
    rewrite IH by (auto; discriminate). reflexivity.
Qed.

Lemma rstrip_empty (s : str) : rstrip s = [] -> all_space s = true.
Proof.
  induction s as [|c s IH]; simpl; [reflexivity|].
  destruct (rstrip s) eqn:E; [|discriminate].
  destruct (is_space c); [auto | discriminate].
Qed.

Lemma at_boundary_rstrip (s : str) :
  rstrip s <> [] -> at_boundary (rstrip s) = at_boundary s.
Proof.
  destruct s as [|c s]; simpl; [congruence|].
  destruct (rstrip s); [destruct (is_space c) eqn:E|]; simpl; congruence.
Qed.

Lemma split_lstrip (s : str) : split (lstrip s) = split s.
Proof.
  induction s as [|c s IH]; simpl; [reflexivity|].
  destruct (is_space c) eqn:E; [exact IH|]. simpl. now rewrite E.
Qed.

Lemma at_boundary_all_space (s : str) :
  all_space s = true -> at_boundary s = true.
Proof.
  destruct s; simpl; [reflexivity|]. rewrite andb_true_iff. tauto.
Qed.

Lemma split_rstrip (s : str) : split (rstrip s) = split s.
Proof.
  induction s as [|c s IH]; [reflexivity|].
  cbn [rstrip]. destruct (rstrip s) as [|d r] eqn:E.
  - pose proof (rstrip_empty _ E) as Hs.
    cbn [split]. rewrite (split_all_space _ Hs), (at_boundary_all_space _ Hs).
    destruct (is_space c) eqn:Hc; simpl; rewrite ?Hc; reflexivity.
  - assert (Hb : at_boundary (d :: r) = at_boundary s).
    { rewrite <- E. apply at_boundary_rstrip. congruence. }
    cbn [split]. rewrite <- IH, <- Hb. reflexivity.
Qed.

Lemma split_strip (s : str) : split (strip s) = split s.
Proof. unfold strip. now rewrite split_lstrip, split_rstrip. Qed.

(** *** The first token *)

Lemma token_run (s : str) :
  exists tok rest,
    s = tok ++ rest /\ no_space tok = true /\ at_boundary rest = true.
Proof.
  induction s as [|c s (tok & rest & E & Ht & Hr)].
  - exists [], []. auto.
  - destruct (is_space c) eqn:Hc.
    + exists [], (c :: s). simpl. auto.
    + exists (c :: tok), rest. simpl. rewrite Hc, Ht, E. auto.
Qed.

Lemma first_token_split (text : str) :
  all_space text = false ->
  exists pre tok rest,
    text = pre ++ tok ++ rest /\ all_space pre = true /\ tok <> [] /\
    no_space tok = true /\ at_boundary rest = true.
Proof.
  induction text as [|c s IH]; simpl; [discriminate|].
  destruct (is_space c) eqn:Hc; simpl.
  - intros H. destruct (IH H) as (pre & tok & rest & E & Hp & Hne & Ht & Hr).
    exists (c :: pre), tok, rest. simpl. rewrite Hc, Hp, E. auto.
  - intros _. destruct (token_run s) as (tok & rest & E & Ht & Hr).
    exists [], (c :: tok), rest. simpl. rewrite Hc, Ht, E.
    repeat split; auto. discriminate.
Qed.

(** The first whitespace-delimited token of a text is what [split()]
    yields first. *)
Lemma first_token_of_split (text tok : str) :
  Stated.first_token_of text tok ->
  exists ws, split (strip text) = tok :: ws.
Proof.
  intros (pre & rest & -> & Hp & Hne & Ht & Hr).
  apply all_space_blank in Hp. apply no_space_solid in Ht.
  apply at_boundary_spec in Hr.
  rewrite split_strip, split_skip by exact Hp.
  rewrite split_token by assumption. eauto.
Qed.

Lemma blank_dec (text : str) : all_space text = false <-> ~ Stated.blank text.
Proof.
  rewrite <- all_space_blank. destruct (all_space text); split; congruence.
Qed.

(** What [split()] yields first is the first whitespace-delimited token. *)
Lemma split_first_token (text tok : str) ws :
  split text = tok :: ws -> Stated.first_token_of text tok.
Proof.
  intros Hs.
  destruct (all_space text) eqn:Hb.
  { rewrite (split_all_space _ Hb) in Hs. discriminate Hs. }
  destruct (first_token_split text Hb) as (pre & tok' & rest & E & Hp & Hne & Ht & Hr).
  assert (tok' = tok).
  { rewrite E, split_skip, split_token in Hs by assumption. congruence. }
  subst tok'. exists pre, rest. split; [exact E|].
  split; [now apply all_space_blank|]. split; [exact Hne|].
  split; [now apply no_space_solid | now apply at_boundary_spec].
Qed.

End PyStrFacts.

(** ** Trimming *)

Module TrimFacts.
Import PyStr PyStrFacts.

Lemma rstrip_spec (s : str) :
  exists post,
    s = rstrip s ++ post /\ Stated.blank post /\
    (forall init c, rstrip s = init ++ [c] -> ~ Stated.Whitespace c).
Proof.
  induction s as [|c s (post & E & Hpost & Hlast)]; simpl.
  - exists []. repeat split; [constructor|].
    intros init c H. destruct init; discriminate H.
  - destruct (rstrip s) as [|d r] eqn:Er.
    + destruct (is_space c) eqn:Hc.
      * exists (c :: post). split; [simpl in E |- *; congruence|]. split.
        -- constructor; [now apply is_space_spec | exact Hpost].
        -- intros init c0 H. destruct init; discriminate H.
      * exists post. split; [simpl in E |- *; congruence|]. split; [exact Hpost|].
        intros init c0 H. destruct init as [|x init].
        -- injection H as <-. now apply is_space_false.
        -- destruct init; discriminate H.
    + exists post. split; [simpl in E |- *; congruence|]. split; [exact Hpost|].
      intros init c0 H. destruct init as [|x init].
      * discriminate H.
      * injection H as _ H. exact (Hlast init c0 H).
Qed.

Lemma lstrip_spec (s : str) :
  exists pre,
    s = pre ++ lstrip s /\ Stated.blank pre /\
    (forall c rest, lstrip s = c :: rest -> ~ Stated.Whitespace c).
Proof.
  induction s as [|c s (pre & E & Hpre & Hfirst)]; simpl.
  - exists []. repeat split; [constructor | discriminate].
  - destruct (is_space c) eqn:Hc.
    + exists (c :: pre). split; [simpl in E |- *; congruence|]. split; [|exact Hfirst].
      constructor; [now apply is_space_spec | exact Hpre].
    + exists []. repeat split; [constructor|].
      intros c0 rest H. injection H as <- _. now apply is_space_false.
Qed.

(** [strip()] removes the whitespace around a text. *)
Lemma strip_trimmed (text : str) : Stated.trimmed_of text (strip text).
Proof.
  unfold strip.
  destruct (rstrip_spec text) as (post & E & Hpost & Hlast).
  destruct (lstrip_spec (rstrip text)) as (pre & E' & Hpre & Hfirst).
  exists pre, post. split.
  - rewrite E at 1. rewrite E' at 1. now rewrite <- app_assoc.
  - split; [exact Hpre|]. split; [exact Hpost|]. split; [exact Hfirst|].
    intros init c H. apply (Hlast (pre ++ init)).
    rewrite E' at 1. rewrite H. now rewrite app_assoc.
Qed.

Lemma rstrip_blank (post : str) : Stated.blank post -> rstrip post = [].
Proof.
  induction 1 as [|c post Hc _ IH]; simpl; [reflexivity|].
  rewrite IH. apply is_space_spec in Hc. now rewrite Hc.
Qed.

Lemma rstrip_app_blank (x post : str) :
  Stated.blank post -> rstrip (x ++ post) = rstrip x.
Proof.
  intros H. induction x as [|c x IH]; simpl.
  - now apply rstrip_blank.
  - now rewrite IH.
Qed.

Lemma rstrip_id (t : str) :
  t <> [] ->
  (forall init c, t = init ++ [c] -> ~ Stated.Whitespace c) ->
  rstrip t = t.
Proof.
  induction t as [|c t IH]; [congruence|]. intros _ Hlast.
  destruct t as [|d t].
  - simpl. specialize (Hlast [] c eq_refl). apply is_space_false in Hlast.
    now rewrite Hlast.
  - change (rstrip (c :: d :: t))
      with (match rstrip (d :: t) with
            | [] => if is_space c then [] else [c]
            | r => c :: r
            end).
    rewrite IH; [reflexivity | discriminate |].
    intros init c0 H. apply (Hlast (c :: init)). simpl. now rewrite H.
Qed.

Lemma lstrip_app_blank (pre s : str) :
  Stated.blank pre ->
  (forall c rest, s = c :: rest -> ~ Stated.Whitespace c) ->
  lstrip (pre ++ s) = s.
Proof.
  intros Hpre Hfirst. induction Hpre as [|c pre Hc _ IH]; simpl.
  - destruct s as [|c rest]; [reflexivity|]. simpl.
    specialize (Hfirst c rest eq_refl). apply is_space_false in Hfirst.
    now rewrite Hfirst.
  - apply is_space_spec in Hc. now rewrite Hc.
Qed.

(** Only one string is a text without its surrounding whitespace. *)
Lemma trimmed_unique (text s : str) :
  Stated.trimmed_of text s -> s = strip text.
Proof.
  intros (pre & post & -> & Hpre & Hpost & Hfirst & Hlast).
  unfold strip. rewrite app_assoc, rstrip_app_blank by exact Hpost.
  destruct s as [|c s'] eqn:Es.
  - rewrite app_nil_r, rstrip_blank by exact Hpre. reflexivity.
  - rewrite <- Es in *. assert (Hne : s <> []) by (rewrite Es; discriminate).
    rewrite rstrip_id.
    + symmetry. now apply lstrip_app_blank.
    + destruct pre; simpl; [exact Hne | discriminate].
    + intros init c0 H.
      destruct (exists_last Hne) as (init' & c' & E').
      rewrite E' in H. rewrite app_assoc in H.
      apply app_inj_tail in H. destruct H as [_ <-].
      exact (Hlast init' c' E').
Qed.

Lemma collect_skus_strip (texts : list str) :
  Scraper.collect_skus (map Some texts) = ([], Ok (map strip texts)).
Proof.
  induction texts as [|t texts IH]; simpl; [reflexivity|]. now rewrite IH.
Qed.

End TrimFacts.
(** ** The monad *)

Lemma bind_raise {A B} (m : M A) (k : A -> M B) t e :
  m = (t, Raise e) -> bind m k = (t, Raise e).
Proof. now intros ->. Qed.

Lemma bind_emit {B} (ev : event) (k : unit -> M B) :
  bind (emit ev) k = (ev :: fst (k tt), snd (k tt)).
Proof. unfold emit. simpl. now destruct (k tt). Qed.

Lemma bind_ret {A B} (a : A) (k : A -> M B) : bind (ret a) k = k a.
Proof. unfold ret. simpl. now destruct (k a). Qed.

(** A loop whose body raises at [x] stops there. *)
Lemma for_each_raise {A} (body : A -> M unit) (l1 l2 : list A) x t1 t e :
  for_each l1 body = (t1, Ok tt) ->
  body x = (t, Raise e) ->
  for_each (l1 ++ x :: l2) body = ((t1 ++ t)%list, Raise e).
Proof.
  revert t1. induction l1 as [|y l1 IH]; intros t1 H1 Hx; simpl in *.
  - injection H1 as <-. now rewrite Hx.
  - destruct (body y) as [ty [[]|e'|]] eqn:Hy; simpl in H1; try discriminate.
    destruct (for_each l1 body) as [tl rl] eqn:Hl.
    injection H1 as <- ->. simpl.
    rewrite (IH tl eq_refl Hx). now rewrite app_assoc.
Qed.

Lemma enumerate_app {A} (l1 l2 : list A) start :
  enumerate start (l1 ++ l2) =
  (enumerate start l1 ++ enumerate (start + length l1) l2)%list.
Proof.
  revert start. induction l1 as [|x l1 IH]; intros start; simpl.
  - now rewrite Nat.add_0_r.
  - rewrite IH. now rewrite Nat.add_succ_r.
Qed.

Lemma enumerate_fst {A} (l : list A) start :
  map fst (enumerate start l) = seq start (length l).
Proof. revert start; induction l; intros; simpl; f_equal; auto. Qed.

Lemma exits_ret {A} (a : A) : exits (ret a).
Proof. discriminate. Qed.

Lemma exits_raise {A} e : exits (@raise A e).
Proof. discriminate. Qed.

Lemma exits_emit ev : exits (emit ev).
Proof. discriminate. Qed.

Lemma exits_bind {A B} (m : M A) (k : A -> M B) :
  exits m -> (forall a, exits (k a)) -> exits (bind m k).
Proof.
  unfold exits. destruct m as [t [a|e|]]; simpl; intros Hm Hk; try easy.
  specialize (Hk a). now destruct (k a).
Qed.

Lemma exits_try_except {A} (m : M A) h :
  exits m -> (forall e, exits (h e)) -> exits (try_except m h).
Proof.
  unfold exits. destruct m as [t [a|e|]]; simpl; intros Hm Hh; try easy.
  specialize (Hh e). now destruct (h e).
Qed.

Lemma exits_for_each {A} (l : list A) body :
  (forall x, exits (body x)) -> exits (for_each l body).
Proof.
  intros H. induction l; simpl; [apply exits_ret|].
  apply exits_bind; auto.
Qed.

Lemma exits_when b m : exits m -> exits (when b m).
Proof. destruct b; simpl; auto using exits_ret. Qed.

Lemma emits_ret P {A} (a : A) : emits P (ret a).
Proof. constructor. Qed.

Lemma emits_raise P {A} e : emits P (@raise A e).
Proof. constructor. Qed.

Lemma emits_emit (P : event -> Prop) ev : P ev -> emits P (emit ev).
Proof. repeat constructor; auto. Qed.

Lemma emits_bind P {A B} (m : M A) (k : A -> M B) :
  emits P m -> (forall a, emits P (k a)) -> emits P (bind m k).
Proof.
  unfold emits. destruct m as [t [a|e|]]; simpl; intros Hm Hk; try easy.
  specialize (Hk a). destruct (k a). simpl in *. apply Forall_app; auto.
Qed.

Lemma emits_try_except P {A} (m : M A) h :
  emits P m -> (forall e, emits P (h e)) -> emits P (try_except m h).
Proof.
  unfold emits. destruct m as [t [a|e|]]; simpl; intros Hm Hh; try easy.
  specialize (Hh e). destruct (h e). simpl in *. apply Forall_app; auto.
Qed.

Lemma emits_for_each P {A} (l : list A) body :
  (forall x, emits P (body x)) -> emits P (for_each l body).
Proof.
  intros H. induction l; simpl; [apply emits_ret|].
  apply emits_bind; auto.
Qed.

Lemma emits_weaken (P Q : event -> Prop) {A} (m : M A) :
  (forall e, P e -> Q e) -> emits P m -> emits Q m.
Proof. intros H. apply Forall_impl. exact H. Qed.

Lemma emits_when P b m : emits P m -> emits P (when b m).
Proof. destruct b; simpl; auto using emits_ret. Qed.

Create HintDb scraper.

#[local] Hint Resolve exits_ret exits_raise exits_emit
  exits_when emits_ret emits_raise emits_emit
  emits_when : scraper.

(** Break a goal about a composed computation into its parts. *)
Ltac mstep :=
  repeat first
    [ apply exits_bind; [|intros]
  | apply emits_bind; [|intros]
  | apply exits_try_except; [|intros]
  | apply emits_try_except; [|intros]
  | apply exits_for_each; intros
  | apply emits_for_each; intros
  | apply emits_when
  | apply exits_when
  | apply emits_emit; first [exact I | reflexivity]
  | match goal with
    | |- context [match ?x with _ => _ end] => destruct x
    end
  | solve [auto with scraper] ].

(** ** The script *)

Module ScraperFacts.
Import PyStr Scraper PyStrFacts.

(** *** Image discovery *)

Lemma url_eqb_eq (a b : option str) : url_eqb a b = true <-> a = b.
Proof.
  destruct a as [x|], b as [y|]; simpl; try (split; congruence).
  rewrite str_eqb_eq. split; congruence.
Qed.

Lemma existsb_url (src : option str) urls :
  existsb (url_eqb src) urls = true <-> In src urls.
Proof.
  rewrite existsb_exists. split.
  - intros [x [Hin Heq]]. apply url_eqb_eq in Heq. now subst.
  - intros Hin. exists src. split; [assumption | now apply url_eqb_eq].
Qed.

Lemma add_url_NoDup src urls : NoDup urls -> NoDup (add_url src urls).
Proof.
  intros H. unfold add_url.
  destruct (existsb (url_eqb src) urls) eqn:E; [assumption|].
  apply NoDup_app; [assumption | repeat constructor; auto |].
  intros x Hx [<- | []]. apply existsb_url in Hx. congruence.
Qed.

Lemma click_thumbnail_result sku i t urls :
  exists tr urls',
    click_thumbnail sku i t urls = (tr, Ok urls') /\
    (urls' = urls \/ exists src, urls' = add_url src urls).
Proof.
  unfold click_thumbnail. destruct t as [[|] [src|]]; simpl;
    do 2 eexists; (split; [reflexivity|]); eauto.
Qed.

Lemma click_thumbnails_NoDup sku ts : forall i urls,
  NoDup urls ->
  exists tr urls',
    click_thumbnails sku i ts urls = (tr, Ok urls') /\ NoDup urls'.
Proof.
  induction ts as [|t ts IH]; intros i urls Hnd; simpl.
  - unfold ret. eauto.
  - destruct (click_thumbnail_result sku i t urls) as (tr & urls1 & -> & Hu).
    assert (Hnd1 : NoDup urls1).
    { destruct Hu as [-> | [src ->]]; auto using add_url_NoDup. }
    destruct (IH (S i) urls1 Hnd1) as (tr2 & urls2 & E & Hnd2).
    simpl. rewrite E. eauto.
Qed.

Lemma collect_image_urls_NoDup sku p :
  exists tr urls, collect_image_urls sku p = (tr, Ok urls) /\ NoDup urls.
Proof.
  unfold collect_image_urls.
  set (warn := when _ _).
  assert (Hw : exists tw, warn = (tw, Ok tt)).
  { subst warn. destruct (thumbnails p); simpl; unfold ret, emit; eauto. }
  destruct Hw as [tw Hw].
  destruct (main_img p) as [src|].
  - destruct (click_thumbnails_NoDup sku (thumbnails p) 0 [src])
      as (tr & urls & E & Hnd); [repeat constructor; auto|].
    rewrite bind_ret. rewrite Hw. simpl. rewrite E. eauto.
  - destruct (click_thumbnails_NoDup sku (thumbnails p) 0 [])
      as (tr & urls & E & Hnd); [constructor|].
    simpl. rewrite Hw. simpl. rewrite E. eauto.
Qed.

(** *** Image download *)

Lemma saved_paths_app t1 t2 :
  saved_paths (t1 ++ t2) = (saved_paths t1 ++ saved_paths t2)%list.
Proof.
  induction t1 as [|e t1 IH]; [reflexivity|].
  destruct e; simpl; try assumption. now rewrite IH.
Qed.

Lemma download_image_result w sku dir item :
  exists tr,
    download_image w sku dir item = (tr, Ok tt) /\
    saved_paths tr =
      if image_ok w dir item then [webp_path dir (fst item)] else [].
Proof.
  destruct item as [idx [url|]]; unfold download_image, image_ok,
    requests_get, convert_to_webp; simpl.
  - destruct (http_get w url) as [content|]; simpl.
    + destruct (image_mode w content) as [mode|]; simpl.
      * destruct (convert_error w content (target_mode mode)); simpl;
          [eauto|].
        destruct (encode_error w content (target_mode mode));
          destruct (can_write w (webp_path dir idx)); simpl; eauto.
      * eauto.
    + eauto.
  - eauto.
Qed.

Lemma download_loop_result w sku dir items :
  exists tr,
    for_each items (download_image w sku dir) = (tr, Ok tt) /\
    saved_paths tr =
      map (fun it => webp_path dir (fst it)) (filter (image_ok w dir) items).
Proof.
  induction items as [|item items IH]; simpl.
  - unfold ret. eauto.
  - destruct (download_image_result w sku dir item) as (t1 & -> & H1).
    destruct IH as (t2 & -> & H2). simpl.
    eexists; split; [reflexivity|].
    rewrite saved_paths_app, H1, H2.
    now destruct (image_ok w dir item).
Qed.

End ScraperFacts.

(** *** One product *)

Module ProductFacts.
Import PyStr Scraper PyStrFacts ScraperFacts.

Lemma bind_inv {A B} (m : M A) (k : A -> M B) tr b :
  bind m k = (tr, Ok b) ->
  exists t1 a t2, m = (t1, Ok a) /\ k a = (t2, Ok b) /\ tr = (t1 ++ t2)%list.
Proof.
  destruct m as [t1 [a|e|]]; simpl; try discriminate.
  destruct (k a) as [t2 r] eqn:E. intros H. injection H as <- ->.
  exists t1, a, t2. auto.
Qed.

Lemma page_local_projections tr :
  Forall page_local tr ->
  visited tr = []%list /\ text_writes tr = []%list /\
  Forall (fun e => is_quit e = false) tr.
Proof.
  induction 1 as [|e tr He _ (IH1 & IH2 & IH3)]; [repeat split; constructor|].
  destruct e; simpl in *; try contradiction; repeat split; auto.
Qed.

Lemma text_writes_app t1 t2 :
  text_writes (t1 ++ t2) = (text_writes t1 ++ text_writes t2)%list.
Proof.
  induction t1 as [|e t1 IH]; [reflexivity|].
  destruct e; simpl; try assumption. now rewrite IH.
Qed.

Lemma extract_metadata_local w sku p : emits page_local (extract_metadata w sku p).
Proof. unfold extract_metadata, find_text, first_token. mstep. Qed.

Lemma click_thumbnails_local sku ts : forall i urls,
  emits page_local (click_thumbnails sku i ts urls).
Proof.
  induction ts as [|t ts IH]; intros i urls; simpl; [apply emits_ret|].
  apply emits_bind; [|intros; apply IH].
  unfold click_thumbnail. mstep.
Qed.

Lemma collect_image_urls_local sku p : emits page_local (collect_image_urls sku p).
Proof. unfold collect_image_urls. mstep. apply click_thumbnails_local. Qed.

Lemma save_images_local w sku dir urls :
  emits page_local (save_images w sku dir urls).
Proof.
  unfold save_images, download_image, requests_get, convert_to_webp. mstep.
Qed.

Lemma save_images_result w sku dir urls :
  exists tr,
    save_images w sku dir urls = (tr, Ok tt) /\
    saved_paths tr =
      map (fun it => webp_path dir (fst it))
          (filter (image_ok w dir) (enumerate 1 urls)).
Proof. apply download_loop_result. Qed.

(** The metadata block succeeds exactly when every required field is
    there, and then yields the record built from the page. *)
Lemma extract_metadata_inv w sku p tr r :
  extract_metadata w sku p = (tr, Ok r) ->
  exists title_text price_raw price ws availability,
    title_el p = Some title_text /\
    price_el p = Some price_raw /\
    split (strip price_raw) = (price :: ws)%list /\
    avail_el p = Some availability /\
    tr = description_warning sku p /\
    r = {| rec_title := strip title_text;
           rec_description := description_of p;
           rec_price := price;
           rec_in_stock := stock_flag (lower (unicode_lower w) availability);
           rec_attributes := extract_attributes p |}.
Proof.
  unfold extract_metadata, find_text, first_token, description_warning.
  destruct (title_el p) as [title_text|]; [|discriminate].
  destruct (price_el p) as [price_raw|];
    [|destruct (str_eqb (description_of p) []); simpl; discriminate].
  destruct (str_eqb (description_of p) []); simpl;
    (destruct (split (strip price_raw)) as [|price ws] eqn:Hs;
       [simpl; discriminate|]);
    (destruct (avail_el p) as [availability|]; [|simpl; discriminate]);
    simpl; intros H; injection H as <- <-;
    exists title_text, price_raw, price, ws, availability; auto 10.
Qed.

Lemma extract_metadata_ok w sku p title_text price_raw price ws availability :
  title_el p = Some title_text ->
  price_el p = Some price_raw ->
  split (strip price_raw) = (price :: ws)%list ->
  avail_el p = Some availability ->
  extract_metadata w sku p =
    (description_warning sku p,
     Ok {| rec_title := strip title_text;
           rec_description := description_of p;
           rec_price := price;
           rec_in_stock := stock_flag (lower (unicode_lower w) availability);
           rec_attributes := extract_attributes p |}).
Proof.
  intros Ht Hp Hs Ha.
  unfold extract_metadata, find_text, first_token, description_warning.
  rewrite Ht, Hp, Ha.
  destruct (str_eqb (description_of p) []); simpl; rewrite Hs; reflexivity.
Qed.

(** A missing required field makes the metadata block raise, after at
    most the description warning. *)
Lemma extract_metadata_raises w sku p :
  required_field_raises p = true ->
  exists tr e,
    extract_metadata w sku p = (tr, Raise e) /\
    (tr = []%list \/ tr = description_warning sku p).
Proof.
  unfold required_field_raises, extract_metadata, find_text, first_token,
    description_warning.
  destruct (title_el p) as [title_text|]; [|simpl; eauto].
  destruct (price_el p) as [price_raw|];
    [|destruct (str_eqb (description_of p) []); simpl; eauto].
  destruct (str_eqb (description_of p) []); simpl;
    destruct (split (strip price_raw)); simpl;
    destruct (avail_el p) as [availability|]; simpl;
    intros H; try discriminate; eauto.
Qed.

End ProductFacts.

(** *** The per-identifier loop and the run *)

Module RunFacts.
Import PyStr Scraper PyStrFacts ScraperFacts ProductFacts.

Lemma page_local_not_quit e : page_local e -> is_quit e = false.
Proof. destruct e; simpl; tauto. Qed.

Lemma process_product_no_quit w total item :
  emits (fun e => is_quit e = false) (process_product w total item).
Proof.
  destruct item as [index sku]. unfold process_product.
  apply emits_bind; [mstep|intros _].
  apply emits_bind; [mstep|intros _].
  apply emits_bind; [mstep|intros _].
  apply emits_bind; [|intros r].
  { eapply emits_weaken; [apply page_local_not_quit|].
    apply extract_metadata_local. }
  apply emits_bind; [|intros urls].
  { eapply emits_weaken; [apply page_local_not_quit|].
    apply collect_image_urls_local. }
  apply emits_bind; [mstep|intros _].
  apply emits_bind; [unfold makedirs; mstep|intros _].
  apply emits_bind; [|intros _].
  { eapply emits_weaken; [apply page_local_not_quit|].
    apply save_images_local. }
  unfold save_metadata, write_text. mstep.
Qed.

Lemma click_thumbnails_exits sku ts : forall i urls,
  exits (click_thumbnails sku i ts urls).
Proof.
  induction ts as [|t ts IH]; intros i urls; simpl; [apply exits_ret|].
  apply exits_bind; [|intros; apply IH].
  unfold click_thumbnail. mstep.
Qed.

Lemma process_product_exits w total item : exits (process_product w total item).
Proof.
  destruct item as [index sku].
  unfold process_product, extract_metadata, find_text, first_token,
    collect_image_urls, makedirs, save_images, download_image, requests_get,
    convert_to_webp, save_metadata, write_text.
  mstep; apply click_thumbnails_exits.
Qed.

Lemma scroll_loop_no_quit w fuel : forall k last,
  emits (fun e => is_quit e = false) (scroll_loop w fuel k last).
Proof.
  induction fuel as [|fuel IH]; intros k last; cbn [scroll_loop]; [constructor|].
  apply emits_bind; [mstep|intros _].
  destruct (Z.eqb _ _); [apply emits_ret | apply IH].
Qed.

(** The scroll loop ends once two consecutive readings agree. *)
Lemma scroll_loop_exits w n : forall fuel k,
  n < fuel ->
  scroll_height w (S (k + n)) = scroll_height w (k + n) ->
  exits (scroll_loop w fuel k (scroll_height w k)).
Proof.
  induction n as [|n IH]; intros fuel k Hlt Heq;
    (destruct fuel as [|fuel]; [lia|]); cbn [scroll_loop].
  - rewrite Nat.add_0_r in Heq. rewrite Heq, Z.eqb_refl. mstep.
  - apply exits_bind; [mstep|intros _].
    destruct (Z.eqb _ _); [apply exits_ret|].
    apply IH; [lia|]. now replace (S k + n) with (k + S n) by lia.
Qed.

Lemma collect_skus_result cards :
  exists r, collect_skus cards = ([]%list, r) /\ r <> Diverge.
Proof.
  induction cards as [|[text|] cards (r & E & Hr)]; simpl.
  - eexists; split; [reflexivity | discriminate].
  - rewrite E. destruct r as [skus|e|]; simpl;
      (eexists; split; [reflexivity | solve [discriminate | congruence]]).
  - eexists; split; [reflexivity | discriminate].
Qed.

Lemma load_listing_no_quit w fuel :
  emits (fun e => is_quit e = false) (load_listing w fuel).
Proof.
  unfold load_listing, scroll_to_load_all.
  apply emits_bind; [mstep|intros _].
  apply emits_bind; [mstep|intros _].
  apply emits_bind; [mstep|intros _].
  apply emits_bind; [apply scroll_loop_no_quit|intros _].
  destruct (collect_skus_result (product_cards w)) as (r & E & _).
  unfold emits. rewrite E. constructor.
Qed.

Lemma run_body_no_quit w fuel :
  emits (fun e => is_quit e = false) (run_body w fuel).
Proof.
  unfold run_body.
  apply emits_bind; [apply load_listing_no_quit|intros skus].
  apply emits_bind; [mstep|intros _].
  apply emits_for_each. intros. apply process_product_no_quit.
Qed.

Lemma run_body_exits w fuel n :
  n < fuel ->
  scroll_height w (S n) = scroll_height w n ->
  exits (run_body w fuel).
Proof.
  intros Hlt Heq. unfold run_body, load_listing, scroll_to_load_all.
  apply exits_bind; [|intros skus].
  - apply exits_bind; [mstep|intros _].
    apply exits_bind; [mstep|intros _].
    apply exits_bind; [mstep|intros _].
    apply exits_bind; [now apply (scroll_loop_exits w n fuel 0)|intros _].
    destruct (collect_skus_result (product_cards w)) as (r & E & Hr).
    unfold exits. now rewrite E.
  - apply exits_bind; [mstep|intros _].
    apply exits_for_each. intros. apply process_product_exits.
Qed.

(** With [try ... finally], every exit of the body is followed by the
    final block. *)
Lemma try_finally_emit {A} (m : M A) ev t r :
  m = (t, r) -> r <> Diverge ->
  try_finally m (emit ev) = ((t ++ [ev])%list, r).
Proof. intros -> Hr. destruct r; simpl; congruence. Qed.

Lemma scrape_products_started w fuel :
  can_write w OUTPUT_DIR = true -> chrome_starts w = true ->
  scrape_products w fuel =
    (Makedirs OUTPUT_DIR :: DriverCreate
       :: fst (try_finally (run_body w fuel) (emit DriverQuit)),
     snd (try_finally (run_body w fuel) (emit DriverQuit))).
Proof.
  intros Hw Hc. unfold scrape_products, makedirs, create_webdriver.
  rewrite Hw, Hc. simpl.
  now destruct (try_finally (run_body w fuel) (emit DriverQuit)).
Qed.

End RunFacts.

(** ** The attribute dictionary *)

Module DictFacts.
Import PyStr Scraper PyStrFacts.

Lemma keys_set x k v d :
  In x (Dict.keys (Dict.set k v d)) -> x = k \/ In x (Dict.keys d).
Proof.
  induction d as [|[k' v'] d IH]; simpl.
  - intros [<- | []]. now left.
  - destruct (str_eqb_spec k' k) as [->|Hne]; simpl.
    + intros [<- | H]; auto.
    + intros [<- | H]; auto. destruct (IH H); auto.
Qed.

Lemma set_fresh k v d :
  ~ In k (Dict.keys d) -> Dict.set k v d = (d ++ [(k, v)])%list.
Proof.
  induction d as [|[k' v'] d IH]; simpl; [reflexivity|]. intros H.
  destruct (str_eqb_spec k' k) as [->|Hne]; [tauto|].
  rewrite IH; tauto.
Qed.

(** Assigning to the key of the entry replaces its value in place. *)
Lemma set_entry_same l v v' before d :
  Dict.entry_at l v before d -> Dict.entry_at l v' before (Dict.set l v' d).
Proof.
  intros (A & B & -> & <- & HA & HB). exists A, B.
  repeat split; auto. clear HB.
  induction A as [|[a va] A IH]; simpl in *.
  - now rewrite str_eqb_refl.
  - destruct (str_eqb_spec a l) as [->|Hne]; [tauto|].
    rewrite IH; tauto.
Qed.

(** Assigning to another key leaves the entry where it is. *)
Lemma set_entry_other l v k v' before d :
  k <> l ->
  Dict.entry_at l v before d -> Dict.entry_at l v before (Dict.set k v' d).
Proof.
  intros Hk (A & B & -> & <- & HA & HB).
  induction A as [|[a va] A IH]; simpl in *.
  - destruct (str_eqb_spec l k) as [->|Hne]; [congruence|].
    exists []%list, (Dict.set k v' B). repeat split; auto.
    intros H. apply keys_set in H. destruct H; auto.
  - destruct (str_eqb_spec a k) as [->|Hne].
    + exists ((k, v') :: A)%list, B. repeat split; auto.
    + destruct IH as (A' & B' & E & HK & _ & HB'); [tauto|].
      rewrite E. exists ((a, va) :: A')%list, B'.
      repeat split; simpl; auto. now rewrite HK.
Qed.

Lemma add_row_entry_other l v before d cells :
  row_label cells <> Some l ->
  Dict.entry_at l v before d -> Dict.entry_at l v before (add_row d cells).
Proof.
  intros Hl H. unfold add_row.
  destruct cells as [|c0 [|c1 [|c2 cells]]]; auto.
  apply set_entry_other; auto. simpl in Hl. congruence.
Qed.

Lemma add_row_entry_any l v before d cells :
  Dict.entry_at l v before d ->
  exists v', Dict.entry_at l v' before (add_row d cells).
Proof.
  intros H.
  assert (Hdec : row_label cells = Some l \/ row_label cells <> Some l).
  { destruct (row_label cells) as [x|]; [|right; discriminate].
    destruct (str_eqb_spec x l) as [->|Hne]; [now left | right; congruence]. }
  destruct Hdec as [E|E].
  - destruct cells as [|c0 [|c1 [|c2 cells]]]; simpl in E; try discriminate.
    injection E as E. exists (strip c1). simpl. rewrite E.
    eapply set_entry_same; eauto.
  - exists v. now apply add_row_entry_other.
Qed.

Lemma fold_entry_other l v before rows : forall d,
  Forall (fun cells => row_label cells <> Some l) rows ->
  Dict.entry_at l v before d ->
  Dict.entry_at l v before (fold_left add_row rows d).
Proof.
  induction rows as [|r rows IH]; intros d Hrows H; simpl; [assumption|].
  inversion Hrows; subst. apply IH; auto using add_row_entry_other.
Qed.

Lemma fold_entry_any l before rows : forall v d,
  Dict.entry_at l v before d ->
  exists v', Dict.entry_at l v' before (fold_left add_row rows d).
Proof.
  induction rows as [|r rows IH]; intros v d H; simpl; [eauto|].
  destruct (add_row_entry_any l v before d r H) as [v1 H1]. eauto.
Qed.

Lemma keys_fold x rows : forall d,
  In x (Dict.keys (fold_left add_row rows d)) ->
  In x (Dict.keys d) \/ exists cells, In cells rows /\ row_label cells = Some x.
Proof.
  induction rows as [|r rows IH]; intros d H; simpl in *; [auto|].
  destruct (IH _ H) as [H1 | (cells & Hin & Hl)]; [|eauto].
  unfold add_row in H1.
  destruct r as [|c0 [|c1 [|c2 r]]]; auto.
  apply keys_set in H1. destruct H1 as [-> | H1]; [|auto].
  right. exists [c0; c1]. auto.
Qed.

End DictFacts.

(** ** Sample evaluations *)

Module Samples.
Import PyStr Scraper.

Example split_price :
  split (strip Demo.grouped_price) =
    [lit "1"; lit "295,00"; lit "kr"].
Proof. reflexivity. Qed.

Example rstrip_colon_ex :
  rstrip_colon (lit "Material::") = lit "Material".
Proof. reflexivity. Qed.

Example run_w_ok :
  scrape_products Demo.w_ok 3 =
    ([Makedirs "output"; DriverCreate; DriverGet LISTING_URL;
      Printed MsgOpenedListing; ScrollToBottom; ScrollToBottom; ScrollToBottom;
      Printed (MsgFound 1);
      DriverGet "https://hedlundgruppen.gung.io/product/A";
      Printed (MsgNoDescription "A");
      Click 0; Click 1; Printed (MsgThumbnailFailed "A" WebDriverException);
      Click 2;
      Makedirs "output/A";
      HttpGet (Some (lit "u1"));
      SaveImage "output/A/1.webp" "RGB" "WEBP" true [x00];
      HttpGet (Some (lit "u2"));
      SaveImage "output/A/2.webp" "RGB" "WEBP" true [x00];
      OpenText "output/A/data.txt";
      WriteText "output/A/data.txt"
"SKU: A
Title: Vase
Price: 129,00
In stock: YES


Color: blue
Size: L";
      Printed (MsgSaved 1 1 "A" 2);
      DriverQuit],
     Ok tt).
Proof. reflexivity. Qed.

Example run_w_no_price :
  scrape_products Demo.w_no_price 3 =
    ([Makedirs "output"; DriverCreate; DriverGet LISTING_URL;
      Printed MsgOpenedListing; ScrollToBottom; ScrollToBottom; ScrollToBottom;
      Printed (MsgFound 2);
      DriverGet "https://hedlundgruppen.gung.io/product/A";
      DriverQuit],
     Raise NoSuchElementException).
Proof. reflexivity. Qed.

Example contains_ex :
  contains "lager" (lower Demo.simple_lower "Slut i LAGER") = true.
Proof. reflexivity. Qed.

End Samples.

(** * The claims *)

Module Claims.
Import PyStr Scraper PyStrFacts ScraperFacts ProductFacts RunFacts DictFacts.

Lemma process_product_raises w total index sku t e :
  let p := product_page w (product_url sku) in
  nav_ok p = true -> ready p = true ->
  extract_metadata w sku p = (t, Raise e) ->
  process_product w total (index, sku) =
    (DriverGet (product_url sku) :: t, Raise e).
Proof.
  intros p Hnav Hready H. unfold process_product. fold p.
  rewrite Hnav, Hready, bind_emit, !bind_ret.
  now rewrite (bind_raise _ _ _ _ H).
Qed.

Lemma keyword_letters (d : cp) :
  In d KEYWORD -> (d = 108 \/ d = 97 \/ d = 103 \/ d = 101 \/ d = 114)%N.
Proof.
  intros H. vm_compute in H.
  repeat (destruct H as [H|H]; [subst d; tauto|]). contradiction.
Qed.

Lemma simple_lower_foreign : Stated.foreign_to KEYWORD Demo.simple_lower.
Proof.
  intros before c after Hc. unfold Demo.simple_lower.
  destruct ((192 <=? c) && (c <=? 222) && negb (c =? 215))%N eqn:E1.
  - split; [discriminate|]. constructor; [|constructor].
    intros H. apply keyword_letters in H. lia.
  - destruct (c =? 8490)%N.
    + split; [discriminate|]. constructor; [|constructor].
      intros H. apply keyword_letters in H. lia.
    + destruct (c =? 304)%N.
      * split; [discriminate|].
        repeat constructor; intros H; apply keyword_letters in H; lia.
      * split; [discriminate|]. constructor; [|constructor].
        intros H. apply keyword_letters in H. lia.
Qed.

(** C1 as stated fails: in a shop listing A then B where the page of A has
    no price element, the required-field extraction of A raises and the
    run never opens the page of B. *)
Lemma C1_counterexample :
  collect_skus (product_cards Demo.w_no_price) = ([], Ok [lit "A"; lit "B"]) /\
  snd (scrape_products Demo.w_no_price 3) = Raise NoSuchElementException /\
  ~ Stated.isolates_failure Demo.w_no_price 3 "A" "B".
Proof.
  split; [reflexivity|]. split; [reflexivity|].
  unfold Stated.isolates_failure. intros H.
  specialize (H eq_refl). vm_compute in H.
  repeat (destruct H as [H|H]; [discriminate H|]). exact H.
Qed.

(** C1, amended: when extraction of a required field (title, price or
    availability text) raises for an identifier, that product's
    processing stops right there, after at most the description warning,
    and the exception leaves the per-identifier loop: nothing is done for
    the later identifiers, the browser is quit and the run ends with
    that exception. *)
Theorem C1_required_field_failure_ends_run
        w fuel t0 (before : list str) sku (after : list str) tb :
  let skus := (before ++ sku :: after)%list in
  let total := length skus in
  let p := product_page w (product_url sku) in
  can_write w OUTPUT_DIR = true ->
  chrome_starts w = true ->
  load_listing w fuel = (t0, Ok skus) ->
  for_each (enumerate 1 before) (process_product w total) = (tb, Ok tt) ->
  nav_ok p = true -> ready p = true ->
  required_field_raises p = true ->
  exists tp e,
    (tp = []%list \/ tp = description_warning sku p) /\
    process_product w total (S (length before), sku) =
      (DriverGet (product_url sku) :: tp, Raise e) /\
    scrape_products w fuel =
      (([Makedirs OUTPUT_DIR; DriverCreate] ++ t0 ++ [Printed (MsgFound total)]
          ++ tb ++ (DriverGet (product_url sku) :: tp) ++ [DriverQuit])%list,
       Raise e).
Proof.
  intros skus total p Hout Hchrome Hlist Hbefore Hnav Hready Hreq.
  destruct (extract_metadata_raises w sku p Hreq) as (tp & e & Hmeta & Htp).
  pose proof (process_product_raises w total (S (length before)) sku tp e
                Hnav Hready Hmeta) as Hprod.
  exists tp, e. split; [exact Htp|]. split; [exact Hprod|].
  assert (Hloop : for_each (enumerate 1 skus) (process_product w total) =
                  ((tb ++ DriverGet (product_url sku) :: tp)%list, Raise e)).
  { unfold skus. rewrite enumerate_app. simpl.
    apply for_each_raise; assumption. }
  assert (Hbody : run_body w fuel =
                  ((t0 ++ [Printed (MsgFound total)]
                      ++ tb ++ DriverGet (product_url sku) :: tp)%list,
                   Raise e)).
  { unfold run_body. rewrite Hlist. simpl. fold skus total.
    now rewrite Hloop. }
  rewrite (scrape_products_started w fuel Hout Hchrome).
  rewrite (try_finally_emit _ DriverQuit _ _ Hbody) by discriminate.
  repeat (simpl; rewrite <- app_assoc). reflexivity.
Qed.

Lemma C1_required_field_failure_ends_run_witness :
  exists tp e,
    (tp = []%list \/
     tp = description_warning "A"
            (product_page Demo.w_no_price (product_url "A"))) /\
    process_product Demo.w_no_price 2 (1, lit "A") =
      (DriverGet (product_url "A") :: tp, Raise e) /\
    scrape_products Demo.w_no_price 3 =
      (([Makedirs OUTPUT_DIR; DriverCreate]
          ++ fst (load_listing Demo.w_no_price 3) ++ [Printed (MsgFound 2)]
          ++ [] ++ (DriverGet (product_url "A") :: tp) ++ [DriverQuit])%list,
       Raise e).
Proof.
  apply (C1_required_field_failure_ends_run Demo.w_no_price 3
           (fst (load_listing Demo.w_no_price 3)) [] (lit "A") [lit "B"] []);
    reflexivity.
Defined.

(** C2 as stated fails: the first of two discovered images cannot be
    fetched, the second is saved, and the only file is [2.webp]. *)
Lemma C2_counterexample :
  saved_paths (fst (scrape_products Demo.w_lost_image 3)) =
    [lit "output/A/2.webp"] /\
  ~ contiguous_numbering "output/A" (fst (scrape_products Demo.w_lost_image 3)).
Proof.
  split; [reflexivity|].
  unfold contiguous_numbering. vm_compute. intros H. discriminate H.
Qed.

(** C2, amended: the image loop always completes; the image discovered
    at 1-based position k is written to k.webp when its download and
    conversion succeed, the files follow the discovery order, and a failed
    image writes nothing and leaves its number unused. The files are
    exactly 1.webp .. N.webp when no image of the product fails. *)
Theorem C2_image_numbering w sku product_dir (image_urls : list (option str)) :
  exists tr,
    save_images w sku product_dir image_urls = (tr, Ok tt) /\
    saved_paths tr =
      map (fun item => webp_path product_dir (fst item))
          (filter (image_ok w product_dir) (enumerate 1 image_urls)) /\
    (forallb (image_ok w product_dir) (enumerate 1 image_urls) = true ->
     saved_paths tr =
       map (webp_path product_dir) (seq 1 (length image_urls)) /\
     contiguous_numbering product_dir tr).
Proof.
  destruct (save_images_result w sku product_dir image_urls) as (tr & E & H).
  exists tr. split; [exact E|]. split; [exact H|]. intros Hall.
  assert (Hs : saved_paths tr =
               map (webp_path product_dir) (seq 1 (length image_urls))).
  { rewrite H, forallb_filter_id by exact Hall.
    rewrite <- (enumerate_fst image_urls 1), map_map. reflexivity. }
  split; [exact Hs|].
  unfold contiguous_numbering. rewrite Hs at 2.
  now rewrite length_map, length_seq.
Qed.

Lemma C2_image_numbering_witness :
  exists tr,
    save_images Demo.w_ok "A" "output/A" [Some (lit "u1"); Some (lit "u2")] =
      (tr, Ok tt) /\
    saved_paths tr = [lit "output/A/1.webp"; lit "output/A/2.webp"] /\
    contiguous_numbering "output/A" tr.
Proof.
  destruct (C2_image_numbering Demo.w_ok "A" "output/A"
              [Some (lit "u1"); Some (lit "u2")])
    as (tr & E & _ & H).
  exists tr. split; [exact E|]. exact (H eq_refl).
Defined.

(** C3: the stock flag is YES exactly when the keyword occurs somewhere
    in the availability text under case-insensitive comparison, and NO
    exactly when it does not. The availability text is lowered with the
    Unicode tables of the interpreter; what is used of them is that
    lowering a character outside ASCII gives at least one character and
    never a letter of the keyword. *)
Theorem C3_stock_flag (w : world) (availability : str) :
  Stated.foreign_to KEYWORD (unicode_lower w) ->
  (stock_flag (lower (unicode_lower w) availability) = lit "YES" <->
   Stated.occurs_nocase KEYWORD availability) /\
  (stock_flag (lower (unicode_lower w) availability) = lit "NO" <->
   ~ Stated.occurs_nocase KEYWORD availability).
Proof.
  intros Hf.
  assert (Hkw : Forall (fun k => (97 <= k <= 122)%N) KEYWORD).
  { vm_compute. repeat constructor; discriminate. }
  rewrite <- (contains_lower (unicode_lower w) KEYWORD availability Hkw Hf).
  unfold stock_flag.
  destruct (contains KEYWORD (lower (unicode_lower w) availability));
    split; split; intros H; try reflexivity; try discriminate; congruence.
Qed.

Lemma C3_stock_flag_witness :
  (stock_flag (lower Demo.simple_lower "Finns i Lager") = lit "YES" /\
   Stated.occurs_nocase KEYWORD "Finns i Lager") /\
  (stock_flag (lower Demo.simple_lower ([197%N] ++ lit "ter i LAGER 3/4"))
     = lit "YES" /\
   Stated.occurs_nocase KEYWORD ([197%N] ++ lit "ter i LAGER 3/4")) /\
  (stock_flag (lower Demo.simple_lower (lit "Sluts" ++ [197%N] ++ lit "ld"))
     = lit "NO" /\
   ~ Stated.occurs_nocase KEYWORD (lit "Sluts" ++ [197%N] ++ lit "ld")).
Proof.
  split; [|split].
  - split; [reflexivity|].
    apply (proj1 (C3_stock_flag Demo.w_ok "Finns i Lager" simple_lower_foreign)).
    reflexivity.
  - split; [reflexivity|].
    apply (proj1 (C3_stock_flag Demo.w_ok ([197%N] ++ lit "ter i LAGER 3/4")
                    simple_lower_foreign)).
    reflexivity.
  - split; [reflexivity|].
    apply (proj2 (C3_stock_flag Demo.w_ok (lit "Sluts" ++ [197%N] ++ lit "ld")
                    simple_lower_foreign)).
    reflexivity.
Defined.

(** What a successful pass over one product looks like. *)
Lemma process_product_inv w total index sku tr :
  process_product w total (index, sku) = (tr, Ok tt) ->
  exists t_meta r t_img n,
    extract_metadata w sku (product_page w (product_url sku)) = (t_meta, Ok r) /\
    Forall page_local t_img /\
    tr = ((DriverGet (product_url sku) :: t_meta) ++ t_img ++
          [OpenText (path_join (path_join OUTPUT_DIR sku) "data.txt");
           WriteText (path_join (path_join OUTPUT_DIR sku) "data.txt")
                     (join newline (metadata_lines sku r));
           Printed (MsgSaved index total sku n)])%list.
Proof.
  unfold process_product. set (p := product_page w (product_url sku)).
  intros H.
  apply bind_inv in H. destruct H as (t1 & [] & t2 & H1 & H & ->).
  injection H1 as <-.
  apply bind_inv in H. destruct H as (t1 & [] & t3 & H1 & H & ->).
  destruct (nav_ok p); [injection H1 as <-|discriminate].
  apply bind_inv in H. destruct H as (t1 & [] & t4 & H1 & H & ->).
  destruct (ready p); [injection H1 as <-|discriminate].
  apply bind_inv in H. destruct H as (t_meta & r & t5 & Hmeta & H & ->).
  apply bind_inv in H. destruct H as (t_urls & urls & t6 & Hurls & H & ->).
  apply bind_inv in H. destruct H as (t_warn & [] & t7 & Hwarn & H & ->).
  apply bind_inv in H. destruct H as (t_dir & [] & t8 & Hdir & H & ->).
  apply bind_inv in H. destruct H as (t_save & [] & t9 & Hsave & H & ->).
  apply bind_inv in H. destruct H as (t_text & [] & t10 & Htext & H & ->).
  injection H as <-.
  unfold save_metadata, write_text in Htext.
  destruct (can_write w (path_join (path_join OUTPUT_DIR sku) "data.txt"));
    [|discriminate].
  rewrite bind_emit in Htext.
  destruct (write_error w _ _); [discriminate|].
  injection Htext as <-.
  exists t_meta, r, (t_urls ++ t_warn ++ t_dir ++ t_save)%list, (length urls).
  split; [exact Hmeta|]. split.
  - pose proof (collect_image_urls_local sku p) as L1.
    pose proof (save_images_local w sku (path_join OUTPUT_DIR sku) urls) as L2.
    unfold emits in L1, L2. rewrite Hurls in L1. rewrite Hsave in L2.
    simpl in L1, L2.
    apply Forall_app; split; [exact L1|].
    apply Forall_app; split.
    { destruct urls; simpl in Hwarn; injection Hwarn as <-;
        repeat constructor. }
    apply Forall_app; split; [|exact L2].
    unfold makedirs in Hdir.
    destruct (can_write w (path_join OUTPUT_DIR sku));
      [injection Hdir as <-|discriminate]. repeat constructor.
  - simpl. rewrite <- !app_assoc. reflexivity.
Qed.

(** Joining lines with line feeds puts one line feed before every line
    but the first. *)
Lemma join_newline_cons (x : str) (ls : list str) :
  join newline (x :: ls) = x ++ flat_map (fun l => [10%N] ++ l) ls.
Proof.
  revert x. induction ls as [|y ls IH]; intros x.
  - simpl. now rewrite app_nil_r.
  - change (join newline (x :: y :: ls))
      with (x ++ newline ++ join newline (y :: ls)).
    rewrite IH. reflexivity.
Qed.

Lemma flat_map_map {A B C} (f : B -> list C) (g : A -> B) (l : list A) :
  flat_map f (map g l) = flat_map (fun x => f (g x)) l.
Proof. induction l as [|x l IH]; simpl; [reflexivity | now rewrite IH]. Qed.

Lemma metadata_text_join sku (r : product_record) :
  join newline (metadata_lines sku r) =
  Stated.metadata_text sku (rec_title r) (rec_price r) (rec_in_stock r)
                       (rec_description r) (rec_attributes r).
Proof.
  unfold metadata_lines, Stated.metadata_text, Stated.attribute_block.
  cbn [app]. rewrite join_newline_cons. cbn [flat_map].
  rewrite flat_map_map. unfold attribute_line.
  repeat (rewrite <- ?app_assoc; cbn [app]). reflexivity.
Qed.

(** C4: for a product processed to the end, the one text file written is
    [data.txt] in the product directory; its text is [SKU: id], a line
    feed, [Title: title], a line feed, [Price: price], a line feed,
    [In stock: YES] or [In stock: NO], two line feeds (an empty line), the
    description, then for every attribute, in the insertion order of the
    attribute dictionary, a line feed and [label: value]. *)
Theorem C4_metadata_file w total index sku tr :
  let p := product_page w (product_url sku) in
  process_product w total (index, sku) = (tr, Ok tt) ->
  exists title_text price_raw price rest availability in_stock,
    title_el p = Some title_text /\
    price_el p = Some price_raw /\
    split (strip price_raw) = (price :: rest)%list /\
    avail_el p = Some availability /\
    in_stock = stock_flag (lower (unicode_lower w) availability) /\
    (in_stock = lit "YES" \/ in_stock = lit "NO") /\
    text_writes tr =
      [(path_join (path_join OUTPUT_DIR sku) "data.txt",
        lit "SKU: " ++ sku ++ [10%N] ++
        lit "Title: " ++ strip title_text ++ [10%N] ++
        lit "Price: " ++ price ++ [10%N] ++
        lit "In stock: " ++ in_stock ++ [10%N] ++
        [10%N] ++
        match desc_els p with d :: _ => strip d | [] => [] end ++
        flat_map (fun kv => [10%N] ++ fst kv ++ lit ": " ++ snd kv)
                 (extract_attributes p))].
Proof.
  intros p H.
  apply process_product_inv in H.
  destruct H as (t_meta & r & t_img & n & Hmeta & Himg & ->).
  pose proof (extract_metadata_local w sku p) as Lmeta.
  unfold emits in Lmeta. fold p in Hmeta. rewrite Hmeta in Lmeta. simpl in Lmeta.
  apply extract_metadata_inv in Hmeta.
  destruct Hmeta as (title_text & price_raw & price & rest & availability
                     & Ht & Hp & Hs & Ha & _ & ->).
  exists title_text, price_raw, price, rest, availability,
    (stock_flag (lower (unicode_lower w) availability)).
  repeat (split; [assumption || reflexivity|]).
  split.
  { unfold stock_flag. destruct (contains _ _); auto. }
  destruct (page_local_projections _ Lmeta) as (_ & Wmeta & _).
  destruct (page_local_projections _ Himg) as (_ & Wimg & _).
  rewrite !text_writes_app. cbn [text_writes]. rewrite Wmeta, Wimg.
  rewrite metadata_text_join. reflexivity.
Qed.

Lemma C4_metadata_file_witness :
  text_writes (fst (process_product Demo.w_lamp 1 (1, lit "L"))) =
    [(lit "output/L/data.txt",
      lit
"SKU: L
Title: Lamp
Price: 1
In stock: YES

Gives light.
Height: 40 cm
Shade: linen")] /\
  text_writes (fst (process_product Demo.w_ok 1 (1, lit "A"))) =
    [(lit "output/A/data.txt",
      lit
"SKU: A
Title: Vase
Price: 129,00
In stock: YES


Color: blue
Size: L")].
Proof.
  split.
  - destruct (C4_metadata_file Demo.w_lamp 1 1 (lit "L")
                (fst (process_product Demo.w_lamp 1 (1, lit "L"))) eq_refl)
      as (title_text & price_raw & price & rest & availability & in_stock
          & Ht & Hp & Hs & Ha & Hi & _ & H).
    rewrite H.
    injection Ht as <-. injection Hp as <-. injection Hs as <- <-.
    injection Ha as <-. rewrite Hi. reflexivity.
  - destruct (C4_metadata_file Demo.w_ok 1 1 (lit "A")
                (fst (process_product Demo.w_ok 1 (1, lit "A"))) eq_refl)
      as (title_text & price_raw & price & rest & availability & in_stock
          & Ht & Hp & Hs & Ha & Hi & _ & H).
    rewrite H.
    injection Ht as <-. injection Hp as <-. injection Hs as <- <-.
    injection Ha as <-. rewrite Hi. reflexivity.
Defined.

(** The run exits as soon as the listing height settles within the
    scroll budget. *)
Lemma scrape_products_exits w fuel n :
  n < fuel ->
  scroll_height w (S n) = scroll_height w n ->
  exits (scrape_products w fuel).
Proof.
  intros Hlt Heq. unfold scrape_products, makedirs, create_webdriver.
  apply exits_bind; [mstep|intros _].
  apply exits_bind; [mstep|intros _].
  pose proof (run_body_exits w fuel n Hlt Heq) as Hb.
  destruct (run_body w fuel) as [t r] eqn:E.
  rewrite (try_finally_emit _ DriverQuit t r eq_refl Hb). exact Hb.
Qed.

(** C5: whenever a run that started a browser session comes to an end,
    by returning or by an exception leaving the run body, quitting the
    browser is the last thing it does, and it does so once. *)
Theorem C5_browser_session_released w fuel tr r :
  scrape_products w fuel = (tr, r) ->
  In DriverCreate tr ->
  r <> Diverge ->
  exists tr',
    tr = (tr' ++ [DriverQuit])%list /\
    Forall (fun e => is_quit e = false) tr'.
Proof.
  intros Hrun Hcreated Hr.
  destruct (can_write w OUTPUT_DIR) eqn:Hout.
  2:{ unfold scrape_products, makedirs in Hrun. rewrite Hout in Hrun.
      simpl in Hrun. injection Hrun as <- <-.
      destruct Hcreated as [H|[]]; discriminate H. }
  destruct (chrome_starts w) eqn:Hchrome.
  2:{ unfold scrape_products, makedirs, create_webdriver in Hrun.
      rewrite Hout, Hchrome in Hrun.
      simpl in Hrun. injection Hrun as <- <-.
      destruct Hcreated as [H|[]]; discriminate H. }
  rewrite (scrape_products_started w fuel Hout Hchrome) in Hrun.
  pose proof (run_body_no_quit w fuel) as Hq. unfold emits in Hq.
  destruct (run_body w fuel) as [t r0] eqn:E. simpl in Hq.
  destruct r0 as [[]|e|].
  - simpl in Hrun. injection Hrun as <- <-.
    exists (Makedirs OUTPUT_DIR :: DriverCreate :: t)%list.
    split; [reflexivity|]. repeat constructor; auto.
  - simpl in Hrun. injection Hrun as <- <-.
    exists (Makedirs OUTPUT_DIR :: DriverCreate :: t)%list.
    split; [reflexivity|]. repeat constructor; auto.
  - simpl in Hrun. injection Hrun as <- <-. congruence.
Qed.

Lemma C5_browser_session_released_witness :
  (snd (scrape_products Demo.w_ok 3) = Ok tt /\
   exists tr',
     fst (scrape_products Demo.w_ok 3) = (tr' ++ [DriverQuit])%list /\
     Forall (fun e => is_quit e = false) tr') /\
  (snd (scrape_products Demo.w_blank_price 3) = Raise IndexError /\
   exists tr',
     fst (scrape_products Demo.w_blank_price 3) = (tr' ++ [DriverQuit])%list /\
     Forall (fun e => is_quit e = false) tr').
Proof.
  split; (split; [reflexivity|]).
  - apply (C5_browser_session_released Demo.w_ok 3 _ (Ok tt)).
    + reflexivity.
    + vm_compute. auto.
    + discriminate.
  - apply (C5_browser_session_released Demo.w_blank_price 3 _ (Raise IndexError)).
    + reflexivity.
    + vm_compute. auto.
    + discriminate.
Defined.

(** C6: image discovery always returns, and the list of image URLs it
    returns holds no URL twice: a discovered URL equal to one already
    collected is skipped. *)
Theorem C6_image_urls_unique sku (p : page) :
  (exists tr image_urls,
     collect_image_urls sku p = (tr, Ok image_urls) /\ NoDup image_urls) /\
  (forall src image_urls,
     In src image_urls -> add_url src image_urls = image_urls).
Proof.
  split; [apply collect_image_urls_NoDup|].
  intros src image_urls Hin. unfold add_url.
  apply existsb_url in Hin. now rewrite Hin.
Qed.

Lemma C6_image_urls_unique_witness :
  collect_image_urls "A" Demo.vase =
    ([Click 0; Click 1; Printed (MsgThumbnailFailed "A" WebDriverException);
      Click 2],
     Ok [Some (lit "u1"); Some (lit "u2")]) /\
  add_url (Some (lit "u1")) [Some (lit "u1"); Some (lit "u2")] =
    [Some (lit "u1"); Some (lit "u2")].
Proof.
  split; [reflexivity|].
  apply (proj2 (C6_image_urls_unique "A" Demo.vase)). simpl. auto.
Defined.

(** The first whitespace-delimited token of a text is unique. *)
Lemma first_token_of_unique (text tok tok' : str) :
  Stated.first_token_of text tok -> Stated.first_token_of text tok' ->
  tok = tok'.
Proof.
  intros H H'.
  destruct (first_token_of_split _ _ H) as [ws E].
  destruct (first_token_of_split _ _ H') as [ws' E'].
  congruence.
Qed.

(** C7: a price text that is not all whitespace has a first
    whitespace-delimited token (whitespace, then a non-empty run without
    whitespace, then nothing or whitespace again), only one, and the
    extracted price is this token; what follows it is dropped. *)
Theorem C7_price_is_first_token (price_raw : str) :
  ~ Stated.blank price_raw ->
  exists tok,
    Stated.first_token_of price_raw tok /\
    (forall tok', Stated.first_token_of price_raw tok' -> tok' = tok) /\
    first_token (strip price_raw) = ret tok.
Proof.
  intros H. apply blank_dec in H.
  destruct (first_token_split price_raw H)
    as (pre & tok & rest & E & Hp & Hne & Ht & Hr).
  assert (Hspec : Stated.first_token_of price_raw tok).
  { exists pre, rest. split; [exact E|].
    split; [now apply all_space_blank|]. split; [exact Hne|].
    split; [now apply no_space_solid | now apply at_boundary_spec]. }
  exists tok. split; [exact Hspec|]. split.
  - intros tok' H'. exact (first_token_of_unique _ _ _ H' Hspec).
  - unfold first_token. destruct (first_token_of_split _ _ Hspec) as [ws ->].
    reflexivity.
Qed.

Lemma C7_price_is_first_token_witness :
  Stated.first_token_of Demo.grouped_price (lit "1") /\
  first_token (strip Demo.grouped_price) = ret (lit "1") /\
  first_token (strip (lit " 129,00 SEK")) = ret (lit "129,00").
Proof.
  assert (N1 : ~ Stated.blank Demo.grouped_price).
  { intros B. apply all_space_blank in B. discriminate B. }
  assert (N2 : ~ Stated.blank (lit " 129,00 SEK")).
  { intros B. apply all_space_blank in B. discriminate B. }
  destruct (C7_price_is_first_token Demo.grouped_price N1) as (tok & H1 & _ & H2).
  destruct (C7_price_is_first_token (lit " 129,00 SEK") N2) as (tok' & _ & _ & H3).
  assert (E : tok = lit "1").
  { vm_compute in H2. injection H2 as <-. reflexivity. }
  assert (E' : tok' = lit "129,00").
  { vm_compute in H3. injection H3 as <-. reflexivity. }
  rewrite <- E, <- E'. split; [exact H1|]. split; [exact H2 | exact H3].
Defined.

(** C8 as stated fails: an image decoded in mode PA (palette with alpha)
    has an alpha channel and is saved in three-channel RGB. *)
Lemma C8_counterexample :
  Pillow.has_alpha_channel "PA" = true /\
  convert_to_webp Demo.w_palette_alpha [x00] "output/A/1.webp" =
    ([SaveImage "output/A/1.webp" "RGB" "WEBP" true [x00]], Ok tt) /\
  ~ Stated.keeps_alpha "PA".
Proof.
  split; [reflexivity|]. split; [reflexivity|].
  intros [_ H]. specialize (H eq_refl). discriminate H.
Qed.

(** C8, amended: for a decodable image the normalizer asks for a
    conversion to four-channel RGBA exactly when the decoded mode is RGBA
    or LA, and to three-channel RGB otherwise; an image without an alpha
    channel always takes the RGB branch, and so do the alpha-carrying
    modes other than RGBA and LA. When the conversion, the opening of the
    output path and the encoding all go through, the converted image is
    saved as WEBP with optimization enabled. When the conversion raises
    (Pillow has no conversion for the pair of modes, or the data is
    truncated) or the path cannot be opened, the exception leaves the
    normalizer and nothing is written; when the encoder raises, the
    exception leaves it after the path has been opened, and no image is
    saved. *)
Theorem C8_normalizer_mode w (image_bytes : list byte) output_path mode :
  image_mode w image_bytes = Some mode ->
  exists target,
    ((mode = "RGBA"%string \/ mode = "LA"%string) /\
     target = "RGBA"%string /\ Pillow.channels target = Some 4
     \/
     ~ (mode = "RGBA"%string \/ mode = "LA"%string) /\
     target = "RGB"%string /\ Pillow.channels target = Some 3) /\
    (Pillow.has_alpha_channel mode = false -> target = "RGB"%string) /\
    (convert_error w image_bytes target = None ->
     can_write w output_path = true ->
     encode_error w image_bytes target = None ->
     convert_to_webp w image_bytes output_path =
       ([SaveImage output_path target "WEBP" true image_bytes], Ok tt)) /\
    (forall e,
       convert_error w image_bytes target = Some e ->
       convert_to_webp w image_bytes output_path = ([], Raise e)) /\
    (convert_error w image_bytes target = None ->
     can_write w output_path = false ->
     convert_to_webp w image_bytes output_path = ([], Raise OSError)) /\
    (forall e,
       convert_error w image_bytes target = None ->
       can_write w output_path = true ->
       encode_error w image_bytes target = Some e ->
       convert_to_webp w image_bytes output_path =
         ([SaveAborted output_path], Raise e)).
Proof.
  intros Hmode. exists (target_mode mode). split; [|split].
  - unfold target_mode.
    destruct (String.eqb_spec mode "RGBA") as [->|H1]; simpl.
    + left. auto.
    + destruct (String.eqb_spec mode "LA") as [->|H2]; simpl.
      * left. auto.
      * right. split; [|auto]. intros [H|H]; congruence.
  - unfold target_mode, Pillow.has_alpha_channel.
    destruct (String.eqb_spec mode "RGBA") as [->|H1]; simpl; [discriminate|].
    destruct (String.eqb_spec mode "LA") as [->|H2]; simpl; [discriminate|].
    reflexivity.
  - unfold convert_to_webp. rewrite Hmode.
    split; [|split; [|split]].
    + intros -> -> ->. reflexivity.
    + intros e ->. reflexivity.
    + intros -> ->. reflexivity.
    + intros e -> -> ->. reflexivity.
Qed.

Lemma C8_normalizer_mode_witness :
  convert_to_webp Demo.w_ok [x00] "output/A/1.webp" =
    ([SaveImage "output/A/1.webp" "RGB" "WEBP" true [x00]], Ok tt) /\
  convert_to_webp Demo.w_lamp [x00] "output/L/1.webp" =
    ([SaveImage "output/L/1.webp" "RGBA" "WEBP" true [x00]], Ok tt) /\
  convert_to_webp Demo.w_premultiplied [x00] "output/A/1.webp" =
    ([], Raise ValueError) /\
  convert_to_webp Demo.w_too_large [x00] "output/A/1.webp" =
    ([SaveAborted "output/A/1.webp"], Raise ValueError).
Proof.
  destruct (C8_normalizer_mode Demo.w_ok [x00] "output/A/1.webp" "RGB" eq_refl)
    as (t1 & [[[H|H] _]|[_ [E1 _]]] & _ & S1 & _);
    [discriminate H | discriminate H |].
  destruct (C8_normalizer_mode Demo.w_lamp [x00] "output/L/1.webp" "RGBA" eq_refl)
    as (t2 & [[_ [E2 _]]|[H _]] & _ & S2 & _);
    [|exfalso; apply H; now left].
  destruct (C8_normalizer_mode Demo.w_premultiplied [x00] "output/A/1.webp" "La"
              eq_refl)
    as (t3 & _ & _ & _ & S3 & _).
  destruct (C8_normalizer_mode Demo.w_too_large [x00] "output/A/1.webp" "RGB"
              eq_refl)
    as (t4 & [[[H|H] _]|[_ [E4 _]]] & _ & _ & _ & _ & S4);
    [discriminate H | discriminate H |].
  subst t1 t2 t4.
  split; [exact (S1 eq_refl eq_refl eq_refl)|].
  split; [exact (S2 eq_refl eq_refl eq_refl)|].
  split; [exact (S3 ValueError eq_refl)|].
  exact (S4 ValueError eq_refl eq_refl eq_refl).
Defined.

(** C9: when the price text of a product page is empty or all
    whitespace, taking its first token raises IndexError, and nothing in
    the per-identifier loop catches it: the loop ends with IndexError at
    that product, after the navigation and at most the description
    warning. *)
Theorem C9_blank_price_leaves_loop
        w total (before : list str) sku (after : list str) tb
        title_text price_raw :
  let p := product_page w (product_url sku) in
  nav_ok p = true -> ready p = true ->
  title_el p = Some title_text ->
  price_el p = Some price_raw ->
  Stated.blank price_raw ->
  for_each (enumerate 1 before) (process_product w total) = (tb, Ok tt) ->
  first_token (strip price_raw) = raise IndexError /\
  for_each (enumerate 1 (before ++ sku :: after)) (process_product w total) =
    ((tb ++ DriverGet (product_url sku) :: description_warning sku p)%list,
     Raise IndexError).
Proof.
  intros p Hnav Hready Ht Hp Hblank Hbefore.
  apply all_space_blank in Hblank.
  assert (Htok : first_token (strip price_raw) = raise IndexError).
  { unfold first_token. now rewrite split_strip, split_all_space. }
  split; [exact Htok|].
  rewrite enumerate_app. simpl. apply for_each_raise; [exact Hbefore|].
  apply process_product_raises; try assumption. fold p.
  unfold extract_metadata, find_text, description_warning.
  rewrite Ht, Hp.
  destruct (str_eqb (description_of p) []); simpl; now rewrite Htok.
Qed.

Lemma C9_blank_price_leaves_loop_witness :
  first_token (strip [32; 160; 8195]%N) = raise IndexError /\
  for_each (enumerate 1 [lit "A"; lit "B"])
           (process_product Demo.w_blank_price 2) =
    ([DriverGet (product_url "A")], Raise IndexError).
Proof.
  apply (C9_blank_price_leaves_loop Demo.w_blank_price 2 [] (lit "A") [lit "B"]
           [] (lit "Bowl") [32; 160; 8195]%N); try reflexivity.
  unfold Stated.blank.
  repeat (apply Forall_cons;
          [unfold Stated.Whitespace, Stated.whitespace_points; simpl; lia|]).
  apply Forall_nil.
Defined.

(** C10: when two well-formed rows of the attribute table give the same
    label, the first of them being the first row with that label and the
    second the last, the attribute dictionary has exactly one entry for
    the label; it holds the value of the later row and stands where the
    earlier row put it, right after the labels of the rows before. *)
Theorem C10_repeated_label (p : page) rows1 a0 a1 rows2 b0 b1 rows3 l :
  attr_table p =
    Some (rows1 ++ [a0; a1] :: rows2 ++ [b0; b1] :: rows3)%list ->
  rstrip_colon (strip a0) = l ->
  rstrip_colon (strip b0) = l ->
  Forall (fun cells => row_label cells <> Some l) rows1 ->
  Forall (fun cells => row_label cells <> Some l) rows3 ->
  Dict.entry_at l (strip b1) (Dict.keys (fold_left add_row rows1 []))
                (extract_attributes p).
Proof.
  intros Htable Ha Hb H1 H3. unfold extract_attributes. rewrite Htable.
  rewrite fold_left_app. cbn [fold_left].
  rewrite fold_left_app. cbn [fold_left].
  set (d1 := fold_left add_row rows1 []).
  assert (Hfresh : ~ In l (Dict.keys d1)).
  { intros Hin. apply keys_fold in Hin. destruct Hin as [[]|(cells & Hc & Hl)].
    rewrite Forall_forall in H1. exact (H1 cells Hc Hl). }
  assert (Ea : Dict.entry_at l (strip a1) (Dict.keys d1) (add_row d1 [a0; a1])).
  { simpl. rewrite Ha, (set_fresh _ _ _ Hfresh).
    exists d1, []%list. repeat split; auto. }
  destruct (fold_entry_any l (Dict.keys d1) rows2 _ _ Ea) as [v2 E2].
  apply fold_entry_other; [exact H3|].
  simpl. rewrite Hb. eapply set_entry_same. exact E2.
Qed.

Lemma C10_repeated_label_witness :
  Dict.entry_at "Color" "blue" [] (extract_attributes Demo.vase) /\
  extract_attributes Demo.vase =
    [(lit "Color", lit "blue"); (lit "Size", lit "L")].
Proof.
  split; [|reflexivity].
  apply (C10_repeated_label Demo.vase [] (lit "Color:") (lit "red")
           [[lit "x"]; [lit "Size:"; lit "L"]]
           (lit "Color") (lit "blue") [] (lit "Color"));
    try reflexivity; constructor.
Defined.

End Claims.
(** * Further properties of the script *)

Module Extras.
Import PyStr Scraper Observe PyStrFacts TrimFacts ScraperFacts ProductFacts RunFacts
  DictFacts.

(** ** Scrolling the listing *)

Lemma scroll_loop_stops w n : forall fuel k,
  n < fuel ->
  (forall j, j < n -> scroll_height w (S (k + j)) <> scroll_height w (k + j)) ->
  scroll_height w (S (k + n)) = scroll_height w (k + n) ->
  scroll_loop w fuel k (scroll_height w k) = (repeat ScrollToBottom (S n), Ok tt).
Proof.
  induction n as [|n IH]; intros fuel k Hlt Hne Heq;
    (destruct fuel as [|fuel]; [lia|]); cbn [scroll_loop].
  - rewrite Nat.add_0_r in Heq. rewrite bind_emit, Heq, Z.eqb_refl. reflexivity.
  - rewrite bind_emit.
    assert (H0 : scroll_height w (S k) <> scroll_height w k).
    { specialize (Hne 0). rewrite Nat.add_0_r in Hne. apply Hne. lia. }
    apply Z.eqb_neq in H0. rewrite H0.
    rewrite (IH fuel (S k)); [reflexivity | lia | |].
    + intros j Hj. replace (S k + j) with (k + S j) by lia. apply Hne. lia.
    + now replace (S k + n) with (k + S n) by lia.
Qed.

(** X1: [scroll_to_load_all] scrolls until, for the first time, the height
    read after a scroll equals the one read before it: with [n] the first
    such reading it scrolls [n + 1] times and returns. *)
Theorem X1_scroll_stops_at_first_stable_height w fuel n :
  n < fuel ->
  (forall j, j < n -> scroll_height w (S j) <> scroll_height w j) ->
  scroll_height w (S n) = scroll_height w n ->
  scroll_to_load_all w fuel = (repeat ScrollToBottom (S n), Ok tt).
Proof.
  intros Hlt Hne Heq. unfold scroll_to_load_all.
  apply (scroll_loop_stops w n fuel 0); auto.
Qed.

Lemma X1_scroll_stops_at_first_stable_height_witness :
  scroll_to_load_all Demo.w_ok 5 =
    ([ScrollToBottom; ScrollToBottom; ScrollToBottom], Ok tt).
Proof.
  apply (X1_scroll_stops_at_first_stable_height Demo.w_ok 5 2).
  - lia.
  - intros j Hj. destruct j as [|[|j]]; [discriminate | discriminate | lia].
  - reflexivity.
Defined.

Lemma scroll_loop_keeps_going w : forall fuel k,
  (forall j, j < fuel -> scroll_height w (S (k + j)) <> scroll_height w (k + j)) ->
  scroll_loop w fuel k (scroll_height w k) = (repeat ScrollToBottom fuel, Diverge).
Proof.
  induction fuel as [|fuel IH]; intros k Hne; cbn [scroll_loop]; [reflexivity|].
  rewrite bind_emit.
  assert (H0 : scroll_height w (S k) <> scroll_height w k).
  { specialize (Hne 0). rewrite Nat.add_0_r in Hne. apply Hne. lia. }
  apply Z.eqb_neq in H0. rewrite H0.
  rewrite (IH (S k)); [reflexivity|].
  intros j Hj. replace (S k + j) with (k + S j) by lia. apply Hne. lia.
Qed.

(** X2: as long as every scroll changes the page height the scroll loop
    goes on: for any number of steps during which the height keeps
    changing, the loop has scrolled that many times and has not returned. *)
Theorem X2_scroll_goes_on_while_height_changes w fuel :
  (forall j, j < fuel -> scroll_height w (S j) <> scroll_height w j) ->
  scroll_to_load_all w fuel = (repeat ScrollToBottom fuel, Diverge).
Proof.
  intros Hne. unfold scroll_to_load_all.
  apply (scroll_loop_keeps_going w fuel 0). exact Hne.
Qed.

Lemma X2_scroll_goes_on_while_height_changes_witness :
  scroll_to_load_all Demo.w_ok 2 = ([ScrollToBottom; ScrollToBottom], Diverge).
Proof.
  apply (X2_scroll_goes_on_while_height_changes Demo.w_ok 2).
  intros j Hj. destruct j as [|[|j]]; [discriminate | discriminate | lia].
Defined.

(** ** Reading the listing *)

(** X3: reading the listing performs no effect of its own. When every
    card has its SKU element there are as many SKUs as cards, in card
    order, repetitions kept, and each SKU is the text of its card without
    the whitespace around it, over all of Unicode's whitespace. A card
    without the SKU element makes the collection raise
    NoSuchElementException, and no SKU is returned at all. *)
Theorem X3_collect_skus (texts : list str) (cards : list (option str)) :
  (exists skus,
     collect_skus (map Some texts) = ([], Ok skus) /\
     Forall2 Stated.trimmed_of texts skus /\
     (forall skus', Forall2 Stated.trimmed_of texts skus' -> skus' = skus)) /\
  (In None cards -> collect_skus cards = ([], Raise NoSuchElementException)).
Proof.
  split.
  - exists (map strip texts). split; [apply collect_skus_strip|]. split.
    + induction texts as [|t texts IH]; simpl; constructor;
        [apply strip_trimmed | exact IH].
    + intros skus' H. induction H as [|t s texts' skus'' Hts _ IH]; simpl;
        [reflexivity|].
      now rewrite IH, (trimmed_unique t s Hts).
  - induction cards as [|[text|] cards IH]; simpl; intros H.
    + contradiction.
    + destruct H as [H|H]; [discriminate|]. now rewrite (IH H).
    + reflexivity.
Qed.

Lemma X3_collect_skus_witness :
  collect_skus
    [Some ([160%N] ++ lit "A1" ++ [8195; 10]%N); Some (lit "B 2");
     Some (lit "A1")] =
    ([], Ok [lit "A1"; lit "B 2"; lit "A1"]) /\
  collect_skus [Some (lit " A "); None; Some (lit "B")] =
    ([], Raise NoSuchElementException).
Proof.
  split.
  - destruct (proj1 (X3_collect_skus
                       [[160%N] ++ lit "A1" ++ [8195; 10]%N; lit "B 2"; lit "A1"]
                       []))
      as (skus & E & _).
    pose proof E as E'. vm_compute in E'. injection E' as <-. exact E.
  - apply (proj2 (X3_collect_skus [] [Some (lit " A "); None; Some (lit "B")])).
    simpl. auto.
Defined.

(** ** The attribute table *)

Lemma fold_add_row_filter rows : forall d,
  fold_left add_row rows d = fold_left add_row (filter two_cells rows) d.
Proof.
  induction rows as [|cells rows IH]; intros d; simpl; [reflexivity|].
  destruct cells as [|c0 [|c1 [|c2 cells]]]; simpl; auto.
Qed.

(** X4: rows of the attribute table that do not have exactly two cells are
    skipped: the attributes are those of the table with such rows removed;
    a page without the table has no attributes. *)
Theorem X4_ill_formed_rows_are_skipped (p : page) rows :
  (attr_table p = Some rows ->
   extract_attributes p = fold_left add_row (filter two_cells rows) []) /\
  (attr_table p = None -> extract_attributes p = []%list).
Proof.
  unfold extract_attributes. split; intros ->; [|reflexivity].
  apply fold_add_row_filter.
Qed.

Lemma X4_ill_formed_rows_are_skipped_witness :
  extract_attributes Demo.vase =
    fold_left add_row (map (map lit) [["Color:"; "red"]; ["Size:"; "L"]; ["Color"; "blue"]]) [].
Proof.
  apply (proj1 (X4_ill_formed_rows_are_skipped Demo.vase
                  (map (map lit) [["Color:"; "red"]; ["x"]; ["Size:"; "L"]; ["Color"; "blue"]]))).
  reflexivity.
Defined.

Lemma keys_set_cases k v d :
  (In k (Dict.keys d) /\ Dict.keys (Dict.set k v d) = Dict.keys d) \/
  (~ In k (Dict.keys d) /\ Dict.keys (Dict.set k v d) = (Dict.keys d ++ [k])%list).
Proof.
  induction d as [|[k' v'] d IH]; simpl.
  - right. split; [tauto | reflexivity].
  - destruct (str_eqb_spec k' k) as [->|Hne]; simpl.
    + left. auto.
    + destruct IH as [[Hin E]|[Hnin E]]; [left | right]; rewrite E.
      * auto.
      * split; [tauto | reflexivity].
Qed.

Lemma set_keeps_NoDup k v d :
  NoDup (Dict.keys d) -> NoDup (Dict.keys (Dict.set k v d)).
Proof.
  intros H. destruct (keys_set_cases k v d) as [[_ E]|[Hnin E]]; rewrite E; auto.
  apply NoDup_app; [assumption | repeat constructor; auto |].
  intros x Hx [<-|[]]. contradiction.
Qed.

Lemma in_keys_set x k v d :
  In x (Dict.keys (Dict.set k v d)) <-> x = k \/ In x (Dict.keys d).
Proof.
  destruct (keys_set_cases k v d) as [[Hin E]|[_ E]]; rewrite E.
  - split; [auto | intros [->|H]; auto].
  - rewrite in_app_iff. simpl. intuition auto.
Qed.

Lemma fold_keys rows : forall d,
  NoDup (Dict.keys d) ->
  NoDup (Dict.keys (fold_left add_row rows d)) /\
  (forall l, In l (Dict.keys (fold_left add_row rows d)) <->
             In l (Dict.keys d) \/ In l (row_labels rows)).
Proof.
  induction rows as [|cells rows IH]; intros d Hd; simpl.
  - split; [assumption | intros l; tauto].
  - assert (Hd' : NoDup (Dict.keys (add_row d cells))).
    { unfold add_row. destruct cells as [|c0 [|c1 [|c2 cells]]]; auto.
      now apply set_keeps_NoDup. }
    destruct (IH _ Hd') as [Hnd Hin]. split; [exact Hnd|].
    intros l. rewrite Hin. unfold add_row, row_label.
    destruct cells as [|c0 [|c1 [|c2 cells]]]; try tauto.
    rewrite in_keys_set. simpl. intuition congruence.
Qed.

(** X5: the attribute dictionary has one entry per distinct label: its
    keys are pairwise different, and a label is a key exactly when some
    two-cell row of the table carries it. *)
Theorem X5_attribute_keys (p : page) rows :
  attr_table p = Some rows ->
  NoDup (Dict.keys (extract_attributes p)) /\
  (forall l, In l (Dict.keys (extract_attributes p)) <-> In l (row_labels rows)).
Proof.
  intros H. unfold extract_attributes. rewrite H.
  destruct (fold_keys rows [] (NoDup_nil _)) as [Hnd Hin].
  split; [exact Hnd|]. intros l. rewrite Hin. simpl. tauto.
Qed.

Lemma X5_attribute_keys_witness :
  NoDup (Dict.keys (extract_attributes Demo.vase)) /\
  (In (lit "Size") (Dict.keys (extract_attributes Demo.vase)) <->
   In (lit "Size") (map lit ["Color"; "Size"; "Color"])).
Proof.
  destruct (X5_attribute_keys Demo.vase
              (map (map lit) [["Color:"; "red"]; ["x"]; ["Size:"; "L"]; ["Color"; "blue"]])
              eq_refl) as [Hnd Hin].
  split; [exact Hnd | exact (Hin "Size")].
Defined.

Lemma get_set_same k v d : dict_get k (Dict.set k v d) = Some v.
Proof.
  induction d as [|[k' v'] d IH]; simpl.
  - now rewrite str_eqb_refl.
  - destruct (str_eqb_spec k' k) as [->|Hne]; simpl.
    + now rewrite str_eqb_refl.
    + destruct (str_eqb_spec k' k); [contradiction | exact IH].
Qed.

Lemma get_set_other k k' v d :
  k' <> k -> dict_get k' (Dict.set k v d) = dict_get k' d.
Proof.
  intros Hk. induction d as [|[k0 v0] d IH]; simpl.
  - destruct (str_eqb_spec k k'); [congruence | reflexivity].
  - destruct (str_eqb_spec k0 k) as [->|Hne]; simpl.
    + destruct (str_eqb_spec k k'); [congruence | reflexivity].
    + destruct (str_eqb_spec k0 k'); [reflexivity | exact IH].
Qed.

Lemma get_add_row_other l d cells :
  row_label cells <> Some l -> dict_get l (add_row d cells) = dict_get l d.
Proof.
  intros H. unfold add_row. destruct cells as [|c0 [|c1 [|c2 cells]]]; auto.
  apply get_set_other. simpl in H. congruence.
Qed.

Lemma get_fold_other l rows : forall d,
  Forall (fun cells => row_label cells <> Some l) rows ->
  dict_get l (fold_left add_row rows d) = dict_get l d.
Proof.
  induction rows as [|cells rows IH]; intros d H; simpl; [reflexivity|].
  inversion H; subst. rewrite IH by assumption. now apply get_add_row_other.
Qed.

Lemma not_in_row_labels l rows :
  ~ In l (row_labels rows) ->
  Forall (fun cells => row_label cells <> Some l) rows.
Proof.
  induction rows as [|cells rows IH]; simpl; intros H; constructor.
  - intros E. rewrite E in H. apply H. now left.
  - apply IH. intros Hin. apply H.
    destruct (row_label cells); [now right | assumption].
Qed.

(** X6: looking a label up in the attribute dictionary gives the stripped
    value cell of the last two-cell row carrying that label, and nothing
    for a label that no two-cell row carries. *)
Theorem X6_attribute_lookup (p : page) rows l :
  attr_table p = Some rows ->
  (forall before c0 c1 after,
     rows = (before ++ [c0; c1] :: after)%list ->
     rstrip_colon (strip c0) = l ->
     Forall (fun cells => row_label cells <> Some l) after ->
     dict_get l (extract_attributes p) = Some (strip c1)) /\
  (~ In l (row_labels rows) -> dict_get l (extract_attributes p) = None).
Proof.
  intros H. unfold extract_attributes. rewrite H. split.
  - intros before c0 c1 after -> Hl Hafter.
    rewrite fold_left_app. cbn [fold_left].
    rewrite get_fold_other by exact Hafter.
    simpl. rewrite Hl. apply get_set_same.
  - intros Hnin. rewrite get_fold_other; [reflexivity|].
    now apply not_in_row_labels.
Qed.

Lemma X6_attribute_lookup_witness :
  dict_get "Color" (extract_attributes Demo.vase) = Some (lit "blue") /\
  dict_get "Weight" (extract_attributes Demo.vase) = None.
Proof.
  split.
  - apply (proj1 (X6_attribute_lookup Demo.vase
                    (map (map lit) [["Color:"; "red"]; ["x"]; ["Size:"; "L"]; ["Color"; "blue"]])
                    "Color" eq_refl)
             (map (map lit) [["Color:"; "red"]; ["x"]; ["Size:"; "L"]]) "Color" "blue" []);
      try reflexivity. constructor.
  - apply (proj2 (X6_attribute_lookup Demo.vase
                    (map (map lit) [["Color:"; "red"]; ["x"]; ["Size:"; "L"]; ["Color"; "blue"]])
                    "Weight" eq_refl)).
    simpl. intros [H|[H|[H|[]]]]; discriminate H.
Defined.

Lemma rstrip_colon_spec (s : str) :
  ends_with_colon (rstrip_colon s) = false /\
  exists n, s = rstrip_colon s ++ colons n.
Proof.
  induction s as [|c s (Hend & n & E)]; simpl.
  - split; [reflexivity | exists 0; reflexivity].
  - destruct (rstrip_colon s) as [|d r] eqn:Er.
    + destruct (N.eqb_spec c 58) as [->|Hc].
      * split; [reflexivity|]. exists (S n). unfold colons in *. simpl in E |- *.
        now f_equal.
      * split.
        { simpl. now apply N.eqb_neq. }
        exists n. unfold colons in *. simpl in E |- *.
        now f_equal.
    + split; [exact Hend|]. exists n. unfold colons in *. simpl in E |- *.
        now f_equal.
Qed.

(** X7: an attribute label loses its trailing colons, all of them and
    nothing else: the label does not end with a colon and the stripped
    cell text is the label followed by colons only. No key of the
    attribute dictionary ends with a colon. *)
Theorem X7_labels_have_no_trailing_colon (p : page) (cell : str) :
  ends_with_colon (rstrip_colon (strip cell)) = false /\
  (exists n, strip cell = rstrip_colon (strip cell) ++ colons n) /\
  Forall (fun k => ends_with_colon k = false) (Dict.keys (extract_attributes p)).
Proof.
  destruct (rstrip_colon_spec (strip cell)) as [H1 H2].
  split; [exact H1|]. split; [exact H2|].
  apply Forall_forall. intros k Hk.
  unfold extract_attributes in Hk. destruct (attr_table p) as [rows|]; [|contradiction].
  apply keys_fold in Hk. destruct Hk as [[]|(cells & _ & Hl)].
  destruct cells as [|c0 [|c1 [|c2 cells]]]; simpl in Hl; try discriminate.
  injection Hl as <-. apply rstrip_colon_spec.
Qed.


(** ** Image discovery *)

Lemma click_thumbnails_step sku i (t : thumb) ts image_urls :
  (thumb_src t = None ->
   click_thumbnails sku i (t :: ts) image_urls =
     (Click i
        :: Printed (MsgThumbnailFailed sku
                      (if click_ok t then NoSuchElementException
                       else WebDriverException))
        :: fst (click_thumbnails sku (S i) ts image_urls),
      snd (click_thumbnails sku (S i) ts image_urls))) /\
  (forall src,
     thumb_src t = Some src ->
     click_thumbnails sku i (t :: ts) image_urls =
       (Click i :: fst (click_thumbnails sku (S i) ts (add_url src image_urls)),
        snd (click_thumbnails sku (S i) ts (add_url src image_urls)))).
Proof.
  unfold thumb_src. split.
  - intros H. cbn [click_thumbnails]. unfold click_thumbnail.
    destruct (click_ok t); [rewrite H|]; simpl;
      now destruct (click_thumbnails sku (S i) ts image_urls).
  - intros src H. cbn [click_thumbnails]. unfold click_thumbnail.
    destruct (click_ok t); [rewrite H|discriminate]. simpl.
    now destruct (click_thumbnails sku (S i) ts (add_url src image_urls)).
Qed.

(** X8: a thumbnail whose click fails, or after which no main image is
    found, costs one warning and changes nothing: the remaining thumbnails
    are processed with the same URL list. A thumbnail that goes through
    hands its URL to the duplicate check and the loop goes on. *)
Theorem X8_thumbnail_failure_is_isolated sku i (t : thumb) ts image_urls :
  (thumb_src t = None ->
   click_thumbnails sku i (t :: ts) image_urls =
     (Click i
        :: Printed (MsgThumbnailFailed sku
                      (if click_ok t then NoSuchElementException
                       else WebDriverException))
        :: fst (click_thumbnails sku (S i) ts image_urls),
      snd (click_thumbnails sku (S i) ts image_urls))) /\
  (forall src,
     thumb_src t = Some src ->
     click_thumbnails sku i (t :: ts) image_urls =
       (Click i :: fst (click_thumbnails sku (S i) ts (add_url src image_urls)),
        snd (click_thumbnails sku (S i) ts (add_url src image_urls)))).
Proof.
  unfold thumb_src. split.
  - intros H. cbn [click_thumbnails]. unfold click_thumbnail.
    destruct (click_ok t); [rewrite H|]; simpl;
      now destruct (click_thumbnails sku (S i) ts image_urls).
  - intros src H. cbn [click_thumbnails]. unfold click_thumbnail.
    destruct (click_ok t); [rewrite H|discriminate]. simpl.
    now destruct (click_thumbnails sku (S i) ts (add_url src image_urls)).
Qed.

Lemma X8_thumbnail_failure_is_isolated_witness :
  click_thumbnails "A" 1 [Demo.stuck; Demo.shown "u2"] [Some (lit "u1")] =
    ([Click 1; Printed (MsgThumbnailFailed "A" WebDriverException); Click 2],
     Ok [Some (lit "u1"); Some (lit "u2")]).
Proof.
  apply (proj1 (X8_thumbnail_failure_is_isolated "A" 1 Demo.stuck
                  [Demo.shown "u2"] [Some (lit "u1")])).
  reflexivity.
Defined.

Lemma in_add_url u src urls : In u (add_url src urls) <-> In u urls \/ u = src.
Proof.
  unfold add_url. destruct (existsb (url_eqb src) urls) eqn:E.
  - apply existsb_url in E. split; [auto | intros [H| ->]; auto].
  - rewrite in_app_iff. simpl. intuition auto.
Qed.

Lemma add_url_extends src urls : exists extra, add_url src urls = (urls ++ extra)%list.
Proof.
  unfold add_url. destruct (existsb (url_eqb src) urls).
  - exists []%list. now rewrite app_nil_r.
  - eauto.
Qed.

Lemma click_thumbnails_members sku ts : forall i urls,
  exists tr urls',
    click_thumbnails sku i ts urls = (tr, Ok urls') /\
    (exists extra, urls' = (urls ++ extra)%list) /\
    (forall u, In u urls' <->
               In u urls \/ exists t, In t ts /\ thumb_src t = Some u).
Proof.
  induction ts as [|t ts IH]; intros i urls.
  - exists []%list, urls. split; [reflexivity|]. split.
    + exists []%list. now rewrite app_nil_r.
    + intros u. split; [auto | intros [H|(t & [] & _)]; exact H].
  - destruct (thumb_src t) as [src|] eqn:Et.
    + destruct (IH (S i) (add_url src urls)) as (tr & urls' & E & Hext & Hin).
      rewrite (proj2 (click_thumbnails_step sku i t ts urls) src Et), E.
      do 2 eexists. split; [reflexivity|]. split.
      * destruct Hext as [extra ->]. destruct (add_url_extends src urls) as [e0 ->].
        exists (e0 ++ extra)%list. now rewrite app_assoc.
      * intros u. rewrite Hin, in_add_url. split.
        { intros [[H| ->]|(t' & Ht' & Hs)]; auto.
          - right. exists t. simpl. auto.
          - right. exists t'. simpl. auto. }
        { intros [H|(t' & [<-|Ht'] & Hs)]; auto.
          - left. right. congruence.
          - right. eauto. }
    + destruct (IH (S i) urls) as (tr & urls' & E & Hext & Hin).
      rewrite (proj1 (click_thumbnails_step sku i t ts urls) Et), E.
      do 2 eexists. split; [reflexivity|]. split; [exact Hext|].
      intros u. rewrite Hin. split.
      * intros [H|(t' & Ht' & Hs)]; auto. right. exists t'. simpl. auto.
      * intros [H|(t' & [<-|Ht'] & Hs)]; auto; [congruence|]. right. eauto.
Qed.

(** X9: the collected image URLs are exactly the source of the main image,
    when there is one, and the sources shown after the thumbnails whose
    click and lookup went through; the main image comes first. *)
Theorem X9_collected_image_urls sku (p : page) :
  exists tr image_urls,
    collect_image_urls sku p = (tr, Ok image_urls) /\
    (forall u, In u image_urls <->
               main_img p = Some u \/
               exists t, In t (thumbnails p) /\ thumb_src t = Some u) /\
    (forall src, main_img p = Some src ->
                 exists rest, image_urls = (src :: rest)%list).
Proof.
  unfold collect_image_urls.
  set (warn := when _ _).
  assert (Hw : exists tw, warn = (tw, Ok tt)).
  { subst warn. destruct (thumbnails p); simpl; unfold ret, emit; eauto. }
  destruct Hw as [tw Hw].
  destruct (main_img p) as [src|].
  - destruct (click_thumbnails_members sku (thumbnails p) 0 [src])
      as (tr & urls & E & [extra Hext] & Hin).
    rewrite bind_ret, Hw. simpl. rewrite E.
    do 2 eexists. split; [reflexivity|]. split.
    + intros u. rewrite Hin. simpl. split.
      * intros [[<-|[]]|H]; auto.
      * intros [H|H]; auto. left. left. congruence.
    + intros src' H. injection H as <-. exists extra. exact Hext.
  - destruct (click_thumbnails_members sku (thumbnails p) 0 [])
      as (tr & urls & E & _ & Hin).
    simpl. rewrite Hw. simpl. rewrite E.
    do 2 eexists. split; [reflexivity|]. split.
    + intros u. rewrite Hin. simpl. split.
      * intros [[]|H]; auto.
      * intros [H|H]; [discriminate | auto].
    + discriminate.
Qed.

(** ** Image download *)

Lemma download_image_cases w sku product_dir idx (img_url : option str) :
  (image_ok w product_dir (idx, img_url) = true ->
   exists url content mode,
     img_url = Some url /\ http_get w url = Some content /\
     image_mode w content = Some mode /\
     convert_error w content (target_mode mode) = None /\
     can_write w (webp_path product_dir idx) = true /\
     encode_error w content (target_mode mode) = None /\
     download_image w sku product_dir (idx, img_url) =
       ([HttpGet img_url;
         SaveImage (webp_path product_dir idx) (target_mode mode) "WEBP" true
                   content],
        Ok tt)) /\
  (image_ok w product_dir (idx, img_url) = false ->
   exists e t,
     (t = [] \/ t = [SaveAborted (webp_path product_dir idx)]) /\
     download_image w sku product_dir (idx, img_url) =
       (HttpGet img_url :: t ++ [Printed (MsgImageFailed img_url sku e)],
        Ok tt)).
Proof.
  unfold image_ok, download_image, requests_get, convert_to_webp. simpl.
  destruct img_url as [url|].
  2:{ split; [discriminate|]. intros _. exists RequestException, []. auto. }
  destruct (http_get w url) as [content|] eqn:Eget.
  2:{ split; [discriminate|]. intros _. exists RequestException, []. auto. }
  simpl. destruct (image_mode w content) as [mode|] eqn:Emode.
  2:{ split; [discriminate|]. intros _. exists UnidentifiedImageError, [].
      auto. }
  destruct (convert_error w content (target_mode mode)) as [e|] eqn:Econv.
  { split; [discriminate|]. intros _. exists e, []. auto. }
  destruct (encode_error w content (target_mode mode)) as [e|] eqn:Eenc;
    destruct (can_write w (webp_path product_dir idx)) eqn:Ew; simpl.
  - split; [discriminate|]. intros _.
    exists e, [SaveAborted (webp_path product_dir idx)]. auto.
  - split; [discriminate|]. intros _. exists OSError, []. auto.
  - split; [|discriminate]. intros _. exists url, content, mode.
    repeat split; auto.
  - split; [discriminate|]. intros _. exists OSError, []. auto.
Qed.

(** X10: one image of the download loop is saved under its number when
    every step goes through: the URL is there, the request answers, the
    bytes decode, the conversion is done, the path can be opened and the
    encoder accepts the image. When any step fails, whichever exception
    it raises is caught and costs one warning naming the URL and the
    exception; no image is saved, and at most the path was opened before
    the encoder failed. An exception of the conversion or of the encoder
    is the one reported. Either way the loop goes on. *)
Theorem X10_download_outcomes w sku product_dir idx (img_url : option str) :
  (forall url content mode,
     img_url = Some url -> http_get w url = Some content ->
     image_mode w content = Some mode ->
     convert_error w content (target_mode mode) = None ->
     can_write w (webp_path product_dir idx) = true ->
     encode_error w content (target_mode mode) = None ->
     image_ok w product_dir (idx, img_url) = true /\
     download_image w sku product_dir (idx, img_url) =
       ([HttpGet img_url;
         SaveImage (webp_path product_dir idx) (target_mode mode) "WEBP" true
                   content],
        Ok tt)) /\
  (image_ok w product_dir (idx, img_url) = false ->
   exists e t,
     (t = [] \/ t = [SaveAborted (webp_path product_dir idx)]) /\
     download_image w sku product_dir (idx, img_url) =
       (HttpGet img_url :: t ++ [Printed (MsgImageFailed img_url sku e)],
        Ok tt) /\
     saved_paths (fst (download_image w sku product_dir (idx, img_url))) = []) /\
  (forall url content mode e,
     img_url = Some url -> http_get w url = Some content ->
     image_mode w content = Some mode ->
     convert_error w content (target_mode mode) = Some e ->
     download_image w sku product_dir (idx, img_url) =
       ([HttpGet img_url; Printed (MsgImageFailed img_url sku e)], Ok tt)) /\
  (forall url content mode e,
     img_url = Some url -> http_get w url = Some content ->
     image_mode w content = Some mode ->
     convert_error w content (target_mode mode) = None ->
     can_write w (webp_path product_dir idx) = true ->
     encode_error w content (target_mode mode) = Some e ->
     download_image w sku product_dir (idx, img_url) =
       ([HttpGet img_url; SaveAborted (webp_path product_dir idx);
         Printed (MsgImageFailed img_url sku e)], Ok tt)).
Proof.
  split; [|split; [|split]].
  - intros url content mode -> Hget Hmode Hconv Hw Henc.
    unfold image_ok, download_image, requests_get, convert_to_webp. simpl.
    rewrite Hget. simpl. rewrite Hmode, Hconv, Henc, Hw. auto.
  - intros Hko.
    destruct (proj2 (download_image_cases w sku product_dir idx img_url) Hko)
      as (e & t & Ht & E).
    exists e, t. split; [exact Ht|]. split; [exact E|]. rewrite E.
    destruct Ht as [-> | ->]; reflexivity.
  - intros url content mode e -> Hget Hmode Hconv.
    unfold download_image, requests_get, convert_to_webp. simpl.
    rewrite Hget. simpl. rewrite Hmode, Hconv. reflexivity.
  - intros url content mode e -> Hget Hmode Hconv Hw Henc.
    unfold download_image, requests_get, convert_to_webp. simpl.
    rewrite Hget. simpl. rewrite Hmode, Hconv, Hw, Henc. reflexivity.
Qed.

Lemma X10_download_outcomes_witness :
  download_image Demo.w_ok "A" "output/A" (1, Some (lit "u1")) =
    ([HttpGet (Some (lit "u1"));
      SaveImage "output/A/1.webp" "RGB" "WEBP" true [x00]], Ok tt) /\
  download_image Demo.w_premultiplied "A" "output/A" (1, Some (lit "u1")) =
    ([HttpGet (Some (lit "u1"));
      Printed (MsgImageFailed (Some (lit "u1")) "A" ValueError)], Ok tt) /\
  download_image Demo.w_too_large "A" "output/A" (1, Some (lit "u1")) =
    ([HttpGet (Some (lit "u1")); SaveAborted "output/A/1.webp";
      Printed (MsgImageFailed (Some (lit "u1")) "A" ValueError)], Ok tt) /\
  exists e,
    download_image Demo.w_lost_image "A" "output/A" (1, Some (lit "u1")) =
      ([HttpGet (Some (lit "u1"));
        Printed (MsgImageFailed (Some (lit "u1")) "A" e)], Ok tt).
Proof.
  split; [|split; [|split]].
  - apply (proj1 (X10_download_outcomes Demo.w_ok "A" "output/A" 1
                    (Some (lit "u1")))
             (lit "u1") [x00] "RGB"%string); reflexivity.
  - apply (proj1 (proj2 (proj2 (X10_download_outcomes Demo.w_premultiplied "A"
                                  "output/A" 1 (Some (lit "u1")))))
             (lit "u1") [x00] "La"%string ValueError); reflexivity.
  - apply (proj2 (proj2 (proj2 (X10_download_outcomes Demo.w_too_large "A"
                                  "output/A" 1 (Some (lit "u1")))))
             (lit "u1") [x00] "RGB"%string ValueError); reflexivity.
  - destruct (proj1 (proj2 (X10_download_outcomes Demo.w_lost_image "A"
                              "output/A" 1 (Some (lit "u1")))) eq_refl)
      as (e & t & Ht & E & _).
    exists e. rewrite E. destruct Ht as [-> | ->]; [reflexivity|].
    vm_compute in E. discriminate E.
Defined.

Lemma http_requests_app t1 t2 :
  http_requests (t1 ++ t2) = (http_requests t1 ++ http_requests t2)%list.
Proof.
  induction t1 as [|e t1 IH]; [reflexivity|].
  destruct e; simpl; try assumption. now rewrite IH.
Qed.

Lemma image_failures_app t1 t2 :
  image_failures (t1 ++ t2) = (image_failures t1 ++ image_failures t2)%list.
Proof.
  induction t1 as [|e t1 IH]; [reflexivity|].
  destruct e as [| | | | | | | | | |m|]; simpl; try assumption.
  destruct m; simpl; try assumption. now rewrite IH.
Qed.

Lemma download_loop_accounting w sku dir items :
  exists tr,
    for_each items (download_image w sku dir) = (tr, Ok tt) /\
    http_requests tr = map snd items /\
    image_failures tr =
      map snd (filter (fun item => negb (image_ok w dir item)) items) /\
    length (saved_paths tr) + length (image_failures tr) = length items.
Proof.
  induction items as [|[idx url] items (tr & E & Hreq & Hfail & Hlen)].
  - exists []%list. auto.
  - destruct (download_image_cases w sku dir idx url) as [Hok Hko].
    cbn [for_each map filter snd negb].
    destruct (image_ok w dir (idx, url)) eqn:Eok.
    + destruct (Hok eq_refl) as (u & content & mode & _ & _ & _ & _ & _ & _ & ->).
      rewrite E. simpl. eexists. split; [reflexivity|]. simpl.
      split; [now rewrite Hreq|]. split; [now rewrite Hfail|]. simpl. lia.
    + destruct (Hko eq_refl) as (e & t & [-> | ->] & ->);
        rewrite E; simpl; (eexists; split; [reflexivity|]); simpl;
        (split; [now rewrite Hreq|]); (split; [now rewrite Hfail|]);
        simpl; lia.
Qed.

Lemma enumerate_length {A} (l : list A) start :
  length (enumerate start l) = length l.
Proof. revert start; induction l; intros; simpl; auto. Qed.

Lemma enumerate_snd {A} (l : list A) start : map snd (enumerate start l) = l.
Proof. revert start; induction l; intros; simpl; f_equal; auto. Qed.

(** X11: the download loop requests every discovered URL exactly once, in
    discovery order, whatever fails on the way; every URL ends either as a
    saved file or as one failure warning, so saved files and warnings
    together are as many as the URLs. *)
Theorem X11_every_url_is_tried_once w sku product_dir
        (image_urls : list (option str)) :
  exists tr,
    save_images w sku product_dir image_urls = (tr, Ok tt) /\
    http_requests tr = image_urls /\
    image_failures tr =
      map snd (filter (fun item => negb (image_ok w product_dir item))
                      (enumerate 1 image_urls)) /\
    length (saved_paths tr) + length (image_failures tr) = length image_urls.
Proof.
  unfold save_images.
  destruct (download_loop_accounting w sku product_dir (enumerate 1 image_urls))
    as (tr & E & Hreq & Hfail & Hlen).
  exists tr. rewrite enumerate_snd in Hreq. rewrite enumerate_length in Hlen.
  split; [exact E|]. split; [exact Hreq|]. split; [exact Hfail|]. exact Hlen.
Qed.


(** ** Prices and file names *)

(** X12: a price that is extracted is the first whitespace-delimited
    token of the price text: it is never empty and contains no whitespace
    character, of all Unicode's; extracting it performs no effect. *)
Theorem X12_price_has_no_whitespace (price_text : str) tr price :
  first_token price_text = (tr, Ok price) ->
  tr = [] /\ price <> [] /\ Stated.solid price /\
  Stated.first_token_of price_text price.
Proof.
  unfold first_token.
  destruct (split price_text) as [|tok toks] eqn:Hs; [discriminate|].
  intros E. injection E as <- <-.
  pose proof (split_first_token _ _ _ Hs) as H.
  destruct H as (pre & rest & E & Hp & Hne & Ht & Hr).
  split; [reflexivity|]. split; [exact Hne|]. split; [exact Ht|].
  exists pre, rest. auto.
Qed.

Lemma X12_price_has_no_whitespace_witness :
  first_token (strip Demo.grouped_price) = ([], Ok (lit "1")) /\
  lit "1" <> [] /\ Stated.solid (lit "1") /\
  Stated.first_token_of (strip Demo.grouped_price) (lit "1").
Proof.
  split; [reflexivity|].
  apply (X12_price_has_no_whitespace (strip Demo.grouped_price) [] (lit "1")).
  reflexivity.
Defined.

Lemma lit_inj (a b : string) : lit a = lit b -> a = b.
Proof.
  unfold lit. intros H.
  rewrite <- (string_of_list_ascii_of_string a),
          <- (string_of_list_ascii_of_string b).
  f_equal. revert H.
  generalize (list_ascii_of_string a) (list_ascii_of_string b).
  intros la. induction la as [|x la IH]; intros [|y lb] H; simpl in H;
    try discriminate; [reflexivity|].
  injection H as Hxy H. f_equal; [|now apply IH].
  rewrite <- (ascii_N_embedding x), <- (ascii_N_embedding y). now rewrite Hxy.
Qed.

Lemma to_uint_nonnil n : Nat.to_uint n <> Decimal.Nil.
Proof.
  rewrite <- (DecimalNat.Unsigned.of_to n) at 1. rewrite DecimalNat.Unsigned.to_of.
  apply DecimalFacts.unorm_nonnil.
Qed.

Lemma of_nat_inj i j : of_nat i = of_nat j -> i = j.
Proof.
  unfold of_nat. intros H. apply lit_inj in H.
  apply DecimalNat.Unsigned.to_uint_inj.
  apply (f_equal NilZero.uint_of_string) in H.
  rewrite !NilZero.usu in H by apply to_uint_nonnil. congruence.
Qed.

Lemma of_nat_starts_with_digit n : starts_with_digit (of_nat n) = true.
Proof.
  unfold of_nat. pose proof (to_uint_nonnil n) as H.
  destruct (Nat.to_uint n); [congruence| | | | | | | | | |]; reflexivity.
Qed.

Lemma digit_not_slash s : starts_with_digit s = true -> starts_with "/" s = false.
Proof.
  intros H. destruct (starts_with "/" s) eqn:E; [|reflexivity].
  apply starts_with_app in E. destruct E as [post ->]. discriminate H.
Qed.

(** The directory part [os.path.join] puts before a relative name. *)
Lemma path_join_relative dir name :
  starts_with "/" name = false ->
  path_join dir name =
    (if (str_eqb dir [] || ends_with_slash dir)%bool then dir
     else dir ++ "/") ++ name.
Proof.
  intros H. unfold path_join. rewrite H.
  destruct (str_eqb dir [] || ends_with_slash dir)%bool;
    [reflexivity|].
  now rewrite <- app_assoc.
Qed.

Lemma image_name_relative n : starts_with "/" (of_nat n ++ ".webp") = false.
Proof.
  apply digit_not_slash.
  pose proof (of_nat_starts_with_digit n) as H.
  destruct (of_nat n); [discriminate H | exact H].
Qed.

(** X13: within one product directory the image files of different
    numbers have different paths, and none of them is the path of
    [data.txt]: no image overwrites another image or the metadata. *)
Theorem X13_image_paths_are_distinct product_dir i j :
  (webp_path product_dir i = webp_path product_dir j -> i = j) /\
  webp_path product_dir i <> path_join product_dir "data.txt".
Proof.
  unfold webp_path.
  rewrite !path_join_relative by (apply image_name_relative || reflexivity).
  split.
  - intros H. apply app_inv_head in H.
    apply app_inv_tail in H. now apply of_nat_inj.
  - intros H. apply app_inv_head in H.
    pose proof (of_nat_starts_with_digit i) as Hd.
    destruct (of_nat i) as [|c s]; [discriminate Hd|].
    unfold lit in H. simpl in H, Hd. injection H as -> _. discriminate Hd.
Qed.

Lemma X13_image_paths_are_distinct_witness :
  webp_path "output/A" 1 <> path_join "output/A" "data.txt" /\
  (webp_path "output/A" 2 = webp_path "output/A" 2 -> 2 = 2).
Proof.
  split.
  - apply (proj2 (X13_image_paths_are_distinct "output/A" 1 1)).
  - apply (proj1 (X13_image_paths_are_distinct "output/A" 2 2)).
Defined.

(** ** One product, block by block *)

Lemma discovery_projections tr :
  Forall discovery_event tr ->
  visited tr = []%list /\ text_writes tr = []%list /\ progress tr = []%list /\
  made_dirs tr = []%list /\ http_requests tr = []%list /\
  saved_paths tr = []%list /\ image_failures tr = []%list /\
  Forall (fun e => is_file_write e = false) tr.
Proof.
  induction 1 as [|e tr He _ IH]; [repeat split; constructor|].
  destruct IH as (I1 & I2 & I3 & I4 & I5 & I6 & I7 & I8).
  destruct e as [| | | | | | | | | |m|]; simpl in He; try contradiction;
    [|destruct m; try contradiction]; simpl; repeat split; auto.
Qed.

Lemma download_projections tr :
  Forall download_event tr ->
  visited tr = []%list /\ text_writes tr = []%list /\ progress tr = []%list /\
  made_dirs tr = []%list.
Proof.
  induction 1 as [|e tr He _ IH]; [repeat split; constructor|].
  destruct IH as (I1 & I2 & I3 & I4).
  destruct e as [| | | | | | | | | |m|]; simpl in He; try contradiction;
    [| | |destruct m; try contradiction]; simpl; repeat split; auto.
Qed.

Lemma discovery_is_page_local e : discovery_event e -> page_local e.
Proof. destruct e as [| | | | | | | | | |m|]; simpl; auto. Qed.

Lemma download_is_page_local e : download_event e -> page_local e.
Proof. destruct e as [| | | | | | | | | |m|]; simpl; auto. Qed.

Lemma extract_metadata_discovery w sku p :
  emits discovery_event (extract_metadata w sku p).
Proof. unfold extract_metadata, find_text, first_token. mstep. Qed.

Lemma click_thumbnails_discovery sku ts : forall i urls,
  emits discovery_event (click_thumbnails sku i ts urls).
Proof.
  induction ts as [|t ts IH]; intros i urls; simpl; [apply emits_ret|].
  apply emits_bind; [|intros; apply IH].
  unfold click_thumbnail. mstep.
Qed.

Lemma collect_image_urls_discovery sku p :
  emits discovery_event (collect_image_urls sku p).
Proof. unfold collect_image_urls. mstep. apply click_thumbnails_discovery. Qed.

Lemma save_images_download w sku dir urls :
  emits download_event (save_images w sku dir urls).
Proof.
  unfold save_images, download_image, requests_get, convert_to_webp. mstep.
Qed.

(** The trace of a product processed to the end, block by block. *)
Lemma process_product_shape w total index sku tr :
  let p := product_page w (product_url sku) in
  let product_dir := path_join OUTPUT_DIR sku in
  process_product w total (index, sku) = (tr, Ok tt) ->
  exists t_meta r t_urls image_urls t_save,
    extract_metadata w sku p = (t_meta, Ok r) /\
    collect_image_urls sku p = (t_urls, Ok image_urls) /\
    save_images w sku product_dir image_urls = (t_save, Ok tt) /\
    tr = ((DriverGet (product_url sku)
             :: t_meta ++ t_urls ++ no_urls_warning sku image_urls)
          ++ Makedirs product_dir
          :: t_save ++
             [OpenText (data_path sku);
              WriteText (data_path sku) (join newline (metadata_lines sku r));
              Printed (MsgSaved index total sku (length image_urls))])%list.
Proof.
  intros p product_dir. unfold process_product. fold p. fold product_dir.
  intros H.
  apply bind_inv in H. destruct H as (t1 & [] & t2 & H1 & H & ->).
  injection H1 as <-.
  apply bind_inv in H. destruct H as (t1 & [] & t3 & H1 & H & ->).
  destruct (nav_ok p); [injection H1 as <-|discriminate].
  apply bind_inv in H. destruct H as (t1 & [] & t4 & H1 & H & ->).
  destruct (ready p); [injection H1 as <-|discriminate].
  apply bind_inv in H. destruct H as (t_meta & r & t5 & Hmeta & H & ->).
  apply bind_inv in H. destruct H as (t_urls & urls & t6 & Hurls & H & ->).
  apply bind_inv in H. destruct H as (t_warn & [] & t7 & Hwarn & H & ->).
  apply bind_inv in H. destruct H as (t_dir & [] & t8 & Hdir & H & ->).
  apply bind_inv in H. destruct H as (t_save & [] & t9 & Hsave & H & ->).
  apply bind_inv in H. destruct H as (t_text & [] & t10 & Htext & H & ->).
  injection H as <-.
  unfold save_metadata, write_text in Htext.
  destruct (can_write w (path_join product_dir "data.txt"));
    [|discriminate].
  rewrite bind_emit in Htext.
  destruct (write_error w _ _); [discriminate|].
  injection Htext as <-.
  unfold makedirs in Hdir.
  destruct (can_write w product_dir); [injection Hdir as <-|discriminate].
  assert (Ew : t_warn = no_urls_warning sku urls).
  { destruct urls; simpl in Hwarn; injection Hwarn as <-; reflexivity. }
  subst t_warn.
  exists t_meta, r, t_urls, urls, t_save.
  repeat (split; [assumption|]).
  simpl. rewrite <- !List.app_assoc. reflexivity.
Qed.

Lemma snoc_split {A} (X : list A) m s a b c :
  (X ++ m :: s ++ [a; b; c] = (X ++ m :: s ++ [a; b]) ++ [c])%list.
Proof. rewrite <- List.app_assoc. simpl. now rewrite <- List.app_assoc. Qed.

(** X14: the closing progress line of a product reports the number of
    image URLs that were discovered, not the number of files written: each
    of these URLs was requested once, and the saved files and the failure
    warnings together are as many as the reported number. *)
Theorem X14_progress_line_counts_discovered_urls w total index sku tr :
  process_product w total (index, sku) = (tr, Ok tt) ->
  exists tr0 t_urls image_urls,
    collect_image_urls sku (product_page w (product_url sku)) =
      (t_urls, Ok image_urls) /\
    tr = (tr0 ++ [Printed (MsgSaved index total sku (length image_urls))])%list /\
    http_requests tr = image_urls /\
    length (saved_paths tr) + length (image_failures tr) = length image_urls.
Proof.
  intros H. apply process_product_shape in H.
  destruct H as (t_meta & r & t_urls & urls & t_save & Hmeta & Hurls & Hsave & ->).
  destruct (download_loop_accounting w sku (path_join OUTPUT_DIR sku)
              (enumerate 1 urls)) as (t_save' & E & Hreq & _ & Hlen).
  unfold save_images in Hsave. rewrite Hsave in E. injection E as <-.
  rewrite enumerate_snd in Hreq.
  rewrite enumerate_length in Hlen.
  pose proof (extract_metadata_discovery w sku (product_page w (product_url sku))) as D1.
  pose proof (collect_image_urls_discovery sku (product_page w (product_url sku))) as D2.
  unfold emits in D1, D2. rewrite Hmeta in D1. rewrite Hurls in D2. simpl in D1, D2.
  destruct (discovery_projections _ D1) as (_ & _ & _ & _ & A1 & A2 & A3 & _).
  destruct (discovery_projections _ D2) as (_ & _ & _ & _ & B1 & B2 & B3 & _).
  assert (Hw : http_requests (no_urls_warning sku urls) = []%list /\
               saved_paths (no_urls_warning sku urls) = []%list /\
               image_failures (no_urls_warning sku urls) = []%list).
  { destruct urls; auto. }
  destruct Hw as (C1 & C2 & C3).
  exists ((DriverGet (product_url sku)
             :: t_meta ++ t_urls ++ no_urls_warning sku urls)
          ++ Makedirs (path_join OUTPUT_DIR sku)
          :: t_save ++
             [OpenText (data_path sku);
              WriteText (data_path sku) (join newline (metadata_lines sku r))])%list,
    t_urls, urls.
  split; [exact Hurls|]. split.
  { apply snoc_split. }
  repeat (rewrite ?http_requests_app, ?saved_paths_app, ?image_failures_app;
          cbn [http_requests saved_paths image_failures]).
  rewrite A1, A2, A3, B1, B2, B3, C1, C2, C3, Hreq.
  cbn [List.app]. rewrite !List.app_nil_r. split; [reflexivity | exact Hlen].
Qed.

Lemma X14_progress_line_counts_discovered_urls_witness :
  exists tr0 t_urls image_urls,
    collect_image_urls "A" (product_page Demo.w_lost_image (product_url "A")) =
      (t_urls, Ok image_urls) /\
    fst (process_product Demo.w_lost_image 1 (1, lit "A")) =
      (tr0 ++ [Printed (MsgSaved 1 1 "A" (length image_urls))])%list /\
    http_requests (fst (process_product Demo.w_lost_image 1 (1, lit "A"))) =
      image_urls /\
    length (saved_paths (fst (process_product Demo.w_lost_image 1 (1, lit "A")))) +
    length (image_failures (fst (process_product Demo.w_lost_image 1 (1, lit "A")))) =
      length image_urls.
Proof.
  apply (X14_progress_line_counts_discovered_urls Demo.w_lost_image 1 1 "A").
  reflexivity.
Defined.

Lemma made_dirs_app t1 t2 :
  made_dirs (t1 ++ t2) = (made_dirs t1 ++ made_dirs t2)%list.
Proof.
  induction t1 as [|e t1 IH]; [reflexivity|].
  destruct e; simpl; try assumption. now rewrite IH.
Qed.

Lemma progress_app t1 t2 :
  progress (t1 ++ t2) = (progress t1 ++ progress t2)%list.
Proof.
  induction t1 as [|e t1 IH]; [reflexivity|].
  destruct e as [| | | | | | | | | |m|]; simpl; try assumption.
  destruct m; simpl; try assumption. now rewrite IH.
Qed.




(** X15: on the way to a processed product the product directory is
    created once, and nothing is written before it is: every image file and
    the metadata file come after the directory. *)
Theorem X15_directory_before_files w total index sku tr :
  process_product w total (index, sku) = (tr, Ok tt) ->
  made_dirs tr = [path_join OUTPUT_DIR sku] /\
  exists t1 t2,
    tr = (t1 ++ Makedirs (path_join OUTPUT_DIR sku) :: t2)%list /\
    Forall (fun e => is_file_write e = false) t1.
Proof.
  intros H. apply process_product_shape in H.
  destruct H as (t_meta & r & t_urls & urls & t_save & Hmeta & Hurls & Hsave & ->).
  pose proof (extract_metadata_discovery w sku (product_page w (product_url sku))) as D1.
  pose proof (collect_image_urls_discovery sku (product_page w (product_url sku))) as D2.
  pose proof (save_images_download w sku (path_join OUTPUT_DIR sku) urls) as D3.
  unfold emits in D1, D2, D3.
  rewrite Hmeta in D1. rewrite Hurls in D2. rewrite Hsave in D3.
  simpl in D1, D2, D3.
  destruct (discovery_projections _ D1) as (_ & _ & _ & A & _ & _ & _ & A').
  destruct (discovery_projections _ D2) as (_ & _ & _ & B & _ & _ & _ & B').
  destruct (download_projections _ D3) as (_ & _ & _ & C).
  assert (Hw : made_dirs (no_urls_warning sku urls) = []%list /\
               Forall (fun e => is_file_write e = false)
                      (no_urls_warning sku urls)).
  { destruct urls; simpl; repeat constructor. }
  destruct Hw as [W W'].
  split.
  - repeat (rewrite ?made_dirs_app; cbn [made_dirs]).
    rewrite A, B, C, W. reflexivity.
  - do 2 eexists. split; [reflexivity|].
    constructor; [reflexivity|]. repeat (apply Forall_app; split); assumption.
Qed.

Lemma X15_directory_before_files_witness :
  made_dirs (fst (process_product Demo.w_ok 1 (1, lit "A"))) = [lit "output/A"].
Proof.
  apply (X15_directory_before_files Demo.w_ok 1 1 "A"). reflexivity.
Defined.

Lemma bind_ok {A B} (m : M A) (k : A -> M B) t a :
  m = (t, Ok a) -> bind m k = ((t ++ fst (k a))%list, snd (k a)).
Proof. intros ->. simpl. now destruct (k a). Qed.

Lemma visited_app t1 t2 : visited (t1 ++ t2) = (visited t1 ++ visited t2)%list.
Proof.
  induction t1 as [|e t1 IH]; [reflexivity|].
  destruct e; simpl; try assumption. now rewrite IH.
Qed.









(** ** The whole run *)

Lemma try_finally_inv {A} (m : M A) ev t a :
  try_finally m (emit ev) = (t, Ok a) ->
  exists t', m = (t', Ok a) /\ t = (t' ++ [ev])%list.
Proof.
  destruct m as [t' [a'|e|]]; simpl; intros H; try discriminate.
  injection H as <- ->. eauto.
Qed.

Lemma listing_projections tr :
  Forall listing_event tr ->
  visited tr = []%list /\ text_writes tr = []%list /\ progress tr = []%list.
Proof.
  induction 1 as [|e tr He _ (I1 & I2 & I3)]; [repeat split; constructor|].
  destruct e as [| | | | | | | | | |m|]; simpl in He; try contradiction;
    try (destruct m; try contradiction); simpl; repeat split; auto.
Qed.

Lemma scroll_loop_listing w fuel : forall k last,
  emits listing_event (scroll_loop w fuel k last).
Proof.
  induction fuel as [|fuel IH]; intros k last; cbn [scroll_loop]; [constructor|].
  apply emits_bind; [mstep|intros _].
  destruct (Z.eqb _ _); [apply emits_ret | apply IH].
Qed.

(** Loading the listing navigates to it once and does nothing else that
    shows in the products' files. *)
Lemma load_listing_trace w fuel :
  exists t, fst (load_listing w fuel) = (DriverGet LISTING_URL :: t)%list /\
            Forall listing_event t.
Proof.
  unfold load_listing. rewrite bind_emit. cbn [fst].
  eexists. split; [reflexivity|].
  apply emits_bind; [mstep|intros _].
  apply emits_bind; [mstep|intros _].
  apply emits_bind; [apply scroll_loop_listing|intros _].
  destruct (collect_skus_result (product_cards w)) as (r & E & _).
  unfold emits. rewrite E. constructor.
Qed.

Lemma load_listing_skus w fuel t0 skus :
  load_listing w fuel = (t0, Ok skus) ->
  collect_skus (product_cards w) = ([]%list, Ok skus).
Proof.
  unfold load_listing. intros H.
  apply bind_inv in H. destruct H as (t1 & [] & t2 & _ & H & _).
  apply bind_inv in H. destruct H as (t3 & [] & t4 & _ & H & _).
  apply bind_inv in H. destruct H as (t5 & [] & t6 & _ & H & _).
  apply bind_inv in H. destruct H as (t7 & [] & t8 & _ & H & _).
  destruct (collect_skus_result (product_cards w)) as (r & E & _).
  rewrite E in H. injection H as _ ->. exact E.
Qed.



Lemma process_product_success w total index sku tr :
  process_product w total (index, sku) = (tr, Ok tt) ->
  visited tr = [product_url sku] /\
  map fst (text_writes tr) = [data_path sku] /\
  progress tr = [(index, total, sku)].
Proof.
  intros H. apply process_product_shape in H.
  destruct H as (t_meta & r & t_urls & urls & t_save & Hmeta & Hurls & Hsave & ->).
  pose proof (extract_metadata_discovery w sku (product_page w (product_url sku))) as D1.
  pose proof (collect_image_urls_discovery sku (product_page w (product_url sku))) as D2.
  pose proof (save_images_download w sku (path_join OUTPUT_DIR sku) urls) as D3.
  unfold emits in D1, D2, D3.
  rewrite Hmeta in D1. rewrite Hurls in D2. rewrite Hsave in D3.
  simpl in D1, D2, D3.
  destruct (discovery_projections _ D1) as (A1 & A2 & A3 & _).
  destruct (discovery_projections _ D2) as (B1 & B2 & B3 & _).
  destruct (download_projections _ D3) as (C1 & C2 & C3 & _).
  assert (Hw : visited (no_urls_warning sku urls) = []%list /\
               text_writes (no_urls_warning sku urls) = []%list /\
               progress (no_urls_warning sku urls) = []%list).
  { destruct urls; auto. }
  destruct Hw as (W1 & W2 & W3).
  repeat (rewrite ?visited_app, ?text_writes_app, ?progress_app;
          cbn [visited text_writes progress]).
  rewrite A1, A2, A3, B1, B2, B3, C1, C2, C3, W1, W2, W3. auto.
Qed.


Lemma loop_success w total items : forall tr,
  for_each items (process_product w total) = (tr, Ok tt) ->
  visited tr = map (fun item => product_url (snd item)) items /\
  map fst (text_writes tr) = map (fun item => data_path (snd item)) items /\
  progress tr = map (fun item => (fst item, total, snd item)) items.
Proof.
  induction items as [|[index sku] items IH]; intros tr H.
  - injection H as <-. auto.
  - cbn [for_each] in H. apply bind_inv in H.
    destruct H as (t1 & [] & t2 & H1 & H2 & ->).
    apply process_product_success in H1. destruct H1 as (V1 & W1 & P1).
    destruct (IH _ H2) as (V2 & W2 & P2).
    rewrite visited_app, text_writes_app, progress_app, map_app.
    rewrite V1, W1, P1, V2, W2, P2. auto.
Qed.

Lemma enumerate_map_snd {A B} (f : A -> B) (l : list A) start :
  map (fun item => f (snd item)) (enumerate start l) = map f l.
Proof. revert start; induction l; intros; simpl; f_equal; auto. Qed.

(** X17: in a run that completes, the browser goes to the listing and then
    to the page of every collected SKU, in listing order and once per
    listed card; one [data.txt] is written per SKU, in the same order, and
    the progress lines count from 1 to the number of SKUs. *)
Theorem X17_completed_run_covers_every_sku w fuel tr :
  scrape_products w fuel = (tr, Ok tt) ->
  exists skus,
    collect_skus (product_cards w) = ([]%list, Ok skus) /\
    visited tr = (LISTING_URL :: map product_url skus)%list /\
    map fst (text_writes tr) = map data_path skus /\
    progress tr =
      map (fun item => (fst item, length skus, snd item)) (enumerate 1 skus).
Proof.
  unfold scrape_products, makedirs, create_webdriver. intros H.
  apply bind_inv in H. destruct H as (t1 & [] & t2 & H1 & H & ->).
  apply bind_inv in H1. destruct H1 as (t1a & [] & t1b & H1a & H1b & ->).
  injection H1a as <-.
  destruct (can_write w OUTPUT_DIR); [injection H1b as <-|discriminate].
  apply bind_inv in H. destruct H as (t3 & [] & t4 & H3 & H & ->).
  destruct (chrome_starts w); [injection H3 as <-|discriminate].
  apply try_finally_inv in H. destruct H as (tb & H & ->).
  unfold run_body in H.
  apply bind_inv in H. destruct H as (t0 & skus & t5 & Hlist & H & ->).
  apply bind_inv in H. destruct H as (t6 & [] & t7 & H6 & Hloop & ->).
  injection H6 as <-.
  exists skus. split; [exact (load_listing_skus w fuel t0 skus Hlist)|].
  destruct (load_listing_trace w fuel) as (t & Et & Lt).
  rewrite Hlist in Et. simpl in Et. subst t0.
  destruct (listing_projections _ Lt) as (V0 & W0 & P0).
  destruct (loop_success w (length skus) _ _ Hloop) as (V & W & P).
  rewrite !enumerate_map_snd in *.
  repeat (rewrite ?visited_app, ?text_writes_app, ?progress_app, ?map_app;
          cbn [visited text_writes progress map List.app]).
  rewrite V0, W0, P0, V, W, P. cbn [List.app map].
  rewrite !List.app_nil_r. auto.
Qed.

Lemma X17_completed_run_covers_every_sku_witness :
  exists skus,
    collect_skus (product_cards Demo.w_ok) = ([]%list, Ok skus) /\
    visited (fst (scrape_products Demo.w_ok 3)) =
      (LISTING_URL :: map product_url skus)%list /\
    map fst (text_writes (fst (scrape_products Demo.w_ok 3))) =
      map data_path skus /\
    progress (fst (scrape_products Demo.w_ok 3)) =
      map (fun item => (fst item, length skus, snd item)) (enumerate 1 skus).
Proof.
  apply (X17_completed_run_covers_every_sku Demo.w_ok 3). reflexivity.
Defined.






(** X19: a listing without product cards is no error: once the page
    height has settled the run reports zero products, visits no product,
    creates no product directory, writes no file, quits the browser and
    returns. *)
Theorem X19_empty_listing w fuel n :
  can_write w OUTPUT_DIR = true ->
  chrome_starts w = true ->
  listing_loads w = true ->
  product_cards w = []%list ->
  n < fuel ->
  (forall j, j < n -> scroll_height w (S j) <> scroll_height w j) ->
  scroll_height w (S n) = scroll_height w n ->
  scrape_products w fuel =
    (([Makedirs OUTPUT_DIR; DriverCreate; DriverGet LISTING_URL;
       Printed MsgOpenedListing]
        ++ repeat ScrollToBottom (S n)
        ++ [Printed (MsgFound 0); DriverQuit])%list,
     Ok tt).
Proof.
  intros Hout Hchrome Hload Hcards Hlt Hne Heq.
  assert (Hscroll : scroll_to_load_all w fuel =
                    (repeat ScrollToBottom (S n), Ok tt)).
  { unfold scroll_to_load_all. apply (scroll_loop_stops w n fuel 0); auto. }
  assert (Hbody : run_body w fuel =
                  (([DriverGet LISTING_URL; Printed MsgOpenedListing]
                      ++ repeat ScrollToBottom (S n)
                      ++ [Printed (MsgFound 0)])%list, Ok tt)).
  { unfold run_body, load_listing. rewrite Hload, Hcards, Hscroll.
    cbn [collect_skus]. unfold ret, emit. cbn [bind for_each enumerate length].
    unfold ret. cbn [List.app]. rewrite !List.app_nil_r. reflexivity. }
  rewrite (scrape_products_started w fuel Hout Hchrome).
  rewrite (try_finally_emit _ DriverQuit _ _ Hbody) by discriminate.
  cbn [fst snd]. f_equal. cbn [List.app]. do 4 f_equal.
  rewrite <- List.app_assoc. reflexivity.
Qed.

Lemma X19_empty_listing_witness :
  scrape_products Broken.empty_shop 5 =
    ([Makedirs "output"; DriverCreate; DriverGet LISTING_URL;
      Printed MsgOpenedListing; ScrollToBottom; ScrollToBottom; ScrollToBottom;
      Printed (MsgFound 0); DriverQuit],
     Ok tt).
Proof.
  apply (X19_empty_listing Broken.empty_shop 5 2); try reflexivity.
  - lia.
  - intros j Hj. destruct j as [|[|j]]; [discriminate | discriminate | lia].
Defined.

(** X20: when the run cannot start there is no session to release: if the
    output directory cannot be created the run ends with OSError before a
    browser exists, and if the browser does not start it ends with
    WebDriverException; neither trace contains a quit. When the listing
    itself fails to load, the started browser is quit and no product is
    visited. *)
Theorem X20_startup_failures w fuel :
  (can_write w OUTPUT_DIR = false ->
   scrape_products w fuel = ([Makedirs OUTPUT_DIR], Raise OSError)) /\
  (can_write w OUTPUT_DIR = true -> chrome_starts w = false ->
   scrape_products w fuel = ([Makedirs OUTPUT_DIR], Raise WebDriverException)) /\
  (can_write w OUTPUT_DIR = true -> chrome_starts w = true ->
   listing_loads w = false ->
   scrape_products w fuel =
     ([Makedirs OUTPUT_DIR; DriverCreate; DriverGet LISTING_URL; DriverQuit],
      Raise WebDriverException)).
Proof.
  unfold scrape_products, makedirs, create_webdriver.
  split; [|split].
  - intros ->. reflexivity.
  - intros -> ->. reflexivity.
  - intros -> -> Hl. unfold run_body, load_listing. rewrite Hl. reflexivity.
Qed.

Lemma X20_startup_failures_witness :
  scrape_products Broken.read_only_disk 3 = ([Makedirs "output"], Raise OSError) /\
  scrape_products Broken.no_browser 3 =
    ([Makedirs "output"], Raise WebDriverException) /\
  scrape_products Broken.no_listing 3 =
    ([Makedirs "output"; DriverCreate; DriverGet LISTING_URL; DriverQuit],
     Raise WebDriverException).
Proof.
  split; [|split].
  - apply (proj1 (X20_startup_failures Broken.read_only_disk 3)). reflexivity.
  - apply (proj1 (proj2 (X20_startup_failures Broken.no_browser 3)));
      reflexivity.
  - apply (proj2 (proj2 (X20_startup_failures Broken.no_listing 3)));
      reflexivity.
Defined.


(** ** What the run writes as images *)

Lemma emits_for_each_in P {A} (l : list A) body :
  (forall x, In x l -> emits P (body x)) -> emits P (for_each l body).
Proof.
  induction l as [|x l IH]; intros H; simpl; [apply emits_ret|].
  apply emits_bind; [apply H; now left|]. intros _. apply IH.
  intros y Hy. apply H. now right.
Qed.

Lemma enumerate_index {A} (l : list A) : forall start idx x,
  In (idx, x) (enumerate start l) -> start <= idx.
Proof.
  induction l as [|y l IH]; intros start idx x H; simpl in H; [contradiction|].
  destruct H as [H|H]; [injection H as <- _; lia|].
  apply IH in H. lia.
Qed.

Lemma discovery_as_designed w skus e :
  discovery_event e -> image_as_designed w skus e.
Proof. destruct e; simpl; auto. contradiction. Qed.

Lemma listing_as_designed w skus e :
  listing_event e -> image_as_designed w skus e.
Proof. destruct e; simpl; auto. contradiction. Qed.

Lemma target_mode_cases mode :
  target_mode mode = "RGB"%string \/ target_mode mode = "RGBA"%string.
Proof.
  unfold target_mode.
  destruct (String.eqb mode "RGBA" || String.eqb mode "LA")%bool; auto.
Qed.

(** [os.path.join] on the output directory and a SKU, then on the
    product directory and an image name. *)
Lemma product_dir_join sku : path_join OUTPUT_DIR sku = Stated.product_directory sku.
Proof.
  unfold path_join, Stated.product_directory.
  destruct (starts_with "/" sku); reflexivity.
Qed.

Lemma webp_path_image_file sku idx :
  webp_path (path_join OUTPUT_DIR sku) idx = Stated.image_file sku idx.
Proof.
  unfold webp_path, Stated.image_file.
  rewrite path_join_relative by apply image_name_relative.
  rewrite product_dir_join.
  assert (Hne : str_eqb (Stated.product_directory sku) [] = false).
  { unfold Stated.product_directory.
    destruct (starts_with "/" sku) eqn:E; [|reflexivity].
    destruct sku; [discriminate E | reflexivity]. }
  rewrite Hne. simpl orb.
  destruct (ends_with_slash (Stated.product_directory sku));
    [reflexivity | now rewrite <- app_assoc].
Qed.

Lemma download_image_as_designed w skus sku idx url :
  In sku skus -> 1 <= idx ->
  emits (image_as_designed w skus)
        (download_image w sku (path_join OUTPUT_DIR sku) (idx, url)).
Proof.
  intros Hsku Hidx. unfold download_image, requests_get, convert_to_webp.
  apply emits_try_except; [|intros; mstep].
  destruct url as [u|]; [|unfold emits; simpl; repeat constructor].
  destruct (http_get w u) as [content|] eqn:Hget;
    [|unfold emits; simpl; repeat constructor].
  rewrite (bind_ok _ _ [HttpGet (Some u)] content eq_refl).
  unfold emits. cbn [fst app]. constructor; [exact I|].
  destruct (image_mode w content) as [mode|]; [|constructor].
  destruct (convert_error w content (target_mode mode)); [constructor|].
  destruct (can_write w _); [|constructor].
  destruct (encode_error w content (target_mode mode));
    [repeat constructor|].
  constructor; [|constructor]. simpl.
  split; [reflexivity|]. split; [reflexivity|].
  split; [apply target_mode_cases|].
  exists sku, idx, u. rewrite webp_path_image_file.
  repeat split; assumption.
Qed.

Lemma process_product_as_designed w skus total index sku :
  In sku skus ->
  emits (image_as_designed w skus) (process_product w total (index, sku)).
Proof.
  intros Hsku. unfold process_product.
  apply emits_bind; [mstep|intros _].
  apply emits_bind; [mstep|intros _].
  apply emits_bind; [mstep|intros _].
  apply emits_bind; [|intros r].
  { eapply emits_weaken; [apply discovery_as_designed|].
    apply extract_metadata_discovery. }
  apply emits_bind; [|intros urls].
  { eapply emits_weaken; [apply discovery_as_designed|].
    apply collect_image_urls_discovery. }
  apply emits_bind; [mstep|intros _].
  apply emits_bind; [unfold makedirs; mstep|intros _].
  apply emits_bind; [|intros _].
  { unfold save_images. apply emits_for_each_in. intros [idx url] Hin.
    apply download_image_as_designed; [exact Hsku|].
    exact (enumerate_index _ _ _ _ Hin). }
  unfold save_metadata, write_text. mstep.
Qed.

Lemma enumerate_in {A} (l : list A) : forall start idx x,
  In (idx, x) (enumerate start l) -> In x l.
Proof.
  induction l as [|y l IH]; intros start idx x H; simpl in H; [contradiction|].
  destruct H as [H|H]; [injection H as _ <-; now left|].
  right. exact (IH _ _ _ H).
Qed.

(** Every event of a run is as designed, for the SKUs read from the
    listing (none when the listing could not be read). *)
Lemma run_as_designed w fuel :
  exists skus,
    (skus = [] \/ collect_skus (product_cards w) = ([], Ok skus)) /\
    Forall (image_as_designed w skus) (fst (scrape_products w fuel)).
Proof.
  destruct (can_write w OUTPUT_DIR) eqn:Hout.
  2:{ exists []. split; [now left|].
      unfold scrape_products, makedirs. rewrite Hout. simpl.
      repeat constructor. }
  destruct (chrome_starts w) eqn:Hchrome.
  2:{ exists []. split; [now left|].
      unfold scrape_products, makedirs, create_webdriver.
      rewrite Hout, Hchrome. simpl. repeat constructor. }
  rewrite (scrape_products_started w fuel Hout Hchrome). cbn [fst].
  destruct (load_listing_trace w fuel) as (t & Et & Lt).
  unfold run_body.
  destruct (load_listing w fuel) as [t0 [skus|e|]] eqn:Hlist;
    simpl in Et; subst t0.
  - exists skus. split; [right; exact (load_listing_skus _ _ _ _ Hlist)|].
    constructor; [exact I|]. constructor; [exact I|].
    assert (Hloop : emits (image_as_designed w skus)
                      (for_each (enumerate 1 skus)
                                (process_product w (length skus)))).
    { apply emits_for_each_in. intros [index sku] Hin.
      apply process_product_as_designed. exact (enumerate_in _ _ _ _ Hin). }
    unfold emits in Hloop.
    assert (Hl : Forall (image_as_designed w skus) t).
    { revert Lt. apply Forall_impl. apply listing_as_designed. }
    rewrite (bind_ok _ _ _ skus eq_refl). rewrite bind_emit. cbn [fst snd].
    destruct (for_each (enumerate 1 skus) (process_product w (length skus)))
      as [tl [[]|e|]]; cbn [fst snd try_finally emit app] in *;
      constructor; try exact I;
      repeat (apply Forall_app; split); repeat constructor; auto.
  - exists []. split; [now left|].
    assert (Hl : Forall (image_as_designed w []) t).
    { revert Lt. apply Forall_impl. apply listing_as_designed. }
    cbn [bind try_finally emit fst].
    constructor; [exact I|]. constructor; [exact I|].
    constructor; [exact I|].
    apply Forall_app; split; repeat constructor; auto.
  - exists []. split; [now left|].
    assert (Hl : Forall (image_as_designed w []) t).
    { revert Lt. apply Forall_impl. apply listing_as_designed. }
    cbn [bind try_finally emit fst].
    constructor; [exact I|]. constructor; [exact I|].
    constructor; [exact I|]. exact Hl.
Qed.

Lemma ends_with_slash_app (p : str) c s :
  ends_with_slash (p ++ c :: s) = ends_with_slash (c :: s).
Proof.
  induction p as [|x p IH]; [reflexivity|].
  simpl app. destruct (p ++ c :: s) eqn:E.
  - destruct p; discriminate E.
  - rewrite <- IH. reflexivity.
Qed.

(** X21: whatever the pages, the network and the image library answer,
    every image file a run writes is a WEBP file saved with optimization,
    in mode RGB or RGBA, holding what some URL answered, and named by a
    number from 1 on in the directory that [os.path.join] makes of the
    output directory and a SKU read from the listing: for a SKU that does
    not begin with a slash this is [output/SKU/n.webp] (one slash less
    when the SKU is empty or ends with one); for a SKU that begins with a
    slash [os.path.join] drops the output directory and the file is
    [SKU/n.webp], outside the output directory. *)
Theorem X21_images_are_written_as_designed
        w fuel path mode format optimize source :
  In (SaveImage path mode format optimize source) (fst (scrape_products w fuel)) ->
  format = "WEBP"%string /\ optimize = true /\
  (mode = "RGB"%string \/ mode = "RGBA"%string) /\
  exists skus sku idx url,
    collect_skus (product_cards w) = ([], Ok skus) /\ In sku skus /\
    1 <= idx /\ http_get w url = Some source /\
    path = webp_path (path_join OUTPUT_DIR sku) idx /\
    (starts_with "/" sku = false ->
     path = lit "output/" ++ sku
              ++ (if (str_eqb sku [] || ends_with_slash sku)%bool then []
                  else lit "/")
              ++ of_nat idx ++ lit ".webp") /\
    (starts_with "/" sku = true ->
     path = sku ++ (if ends_with_slash sku then [] else lit "/")
              ++ of_nat idx ++ lit ".webp").
Proof.
  intros Hin.
  destruct (run_as_designed w fuel) as (skus & Hskus & Hall).
  rewrite Forall_forall in Hall. specialize (Hall _ Hin). simpl in Hall.
  destruct Hall as (Hf & Ho & Hm & sku & idx & url & Hsku & Hidx & Hpath & Hget).
  split; [exact Hf|]. split; [exact Ho|]. split; [exact Hm|].
  exists skus, sku, idx, url.
  destruct Hskus as [-> | Hskus]; [contradiction|].
  split; [exact Hskus|]. split; [exact Hsku|]. split; [exact Hidx|].
  split; [exact Hget|]. split; [now rewrite webp_path_image_file|].
  subst path. unfold Stated.image_file, Stated.product_directory.
  split; intros Hs; rewrite Hs.
  - destruct sku as [|c sku']; [reflexivity|].
    rewrite ends_with_slash_app. simpl orb. now rewrite <- app_assoc.
  - reflexivity.
Qed.

Lemma X21_images_are_written_as_designed_witness :
  In (SaveImage (lit "/tmp/evil/1.webp") "RGB" "WEBP" true [x00])
     (fst (scrape_products Demo.w_absolute_sku 3)) /\
  In (SaveImage (lit "output/A/2.webp") "RGB" "WEBP" true [x00])
     (fst (scrape_products Demo.w_ok 3)) /\
  exists skus sku idx url,
    collect_skus (product_cards Demo.w_absolute_sku) = ([], Ok skus) /\
    In sku skus /\ 1 <= idx /\
    http_get Demo.w_absolute_sku url = Some [x00] /\
    lit "/tmp/evil/1.webp" = webp_path (path_join OUTPUT_DIR sku) idx.
Proof.
  assert (H1 : In (SaveImage (lit "/tmp/evil/1.webp") "RGB" "WEBP" true [x00])
                  (fst (scrape_products Demo.w_absolute_sku 3))).
  { vm_compute. repeat (first [left; reflexivity | right]). }
  split; [exact H1|]. split.
  { vm_compute. repeat (first [left; reflexivity | right]). }
  destruct (X21_images_are_written_as_designed Demo.w_absolute_sku 3 _ _ _ _ _ H1)
    as (_ & _ & _ & skus & sku & idx & url & A & B & C & D & E & _).
  exists skus, sku, idx, url. auto.
Defined.


(** ** Trimmed fields *)

(** X22: the text fields the script keeps (SKU, title, description, price
    text, attribute cells) are element texts without the whitespace around
    them, over all of Unicode's whitespace, and nothing else is removed:
    the text is whitespace, then the kept field, then whitespace, the
    field neither begins nor ends with whitespace, and only one string
    fits. In a record that was extracted the title is the trimmed title
    element, the description the trimmed first description element (empty
    when there is none), and every attribute label and value fits this as
    far as its trailing colons go. *)
Theorem X22_fields_are_trimmed (text : str) w sku (p : page) tr r :
  Stated.trimmed_of text (strip text) /\
  (forall s, Stated.trimmed_of text s -> s = strip text) /\
  (extract_metadata w sku p = (tr, Ok r) ->
   (exists title_text,
      title_el p = Some title_text /\
      Stated.trimmed_of title_text (rec_title r)) /\
   (forall d ds, desc_els p = d :: ds ->
                 Stated.trimmed_of d (rec_description r)) /\
   (desc_els p = [] -> rec_description r = [])).
Proof.
  split; [apply strip_trimmed|]. split; [apply trimmed_unique|].
  intros H. apply extract_metadata_inv in H.
  destruct H as (title_text & price_raw & price & ws & availability
                 & Ht & _ & _ & _ & _ & ->).
  cbn [rec_title rec_description]. unfold description_of.
  split; [exists title_text; split; [exact Ht | apply strip_trimmed]|].
  split.
  - intros d ds ->. apply strip_trimmed.
  - intros ->. reflexivity.
Qed.

Lemma X22_fields_are_trimmed_witness :
  strip ([160%N] ++ lit "Lamp" ++ [8195; 10]%N) = lit "Lamp" /\
  exists r,
    snd (extract_metadata Demo.w_lamp "L" Demo.lamp) = Ok r /\
    rec_title r = lit "Lamp" /\
    rec_description r = lit "Gives light." /\
    Stated.trimmed_of (lit " Gives light. ") (rec_description r).
Proof.
  split; [reflexivity|].
  destruct (extract_metadata Demo.w_lamp "L" Demo.lamp) as [tr [r| |]] eqn:E;
    try (vm_compute in E; discriminate E).
  exists r. split; [reflexivity|].
  destruct (X22_fields_are_trimmed [] Demo.w_lamp "L" Demo.lamp tr r)
    as (_ & _ & H).
  destruct (H E) as (_ & Hd & _).
  pose proof E as E'. vm_compute in E'. injection E' as _ <-.
  split; [reflexivity|]. split; [reflexivity|].
  exact (Hd (lit " Gives light. ") [lit "ignored"] eq_refl).
Defined.

End Extras.
